(** * A relay server for the APS translation service (server/server.js)

    Shallow embedding of the Express application in [server/server.js] and
    proofs about its request handlers.

    Layout:
    - [JS]     : the JavaScript values the server manipulates (UTF-16 strings,
                 JSON values, errors) and the built-ins it calls;
    - [Http]   : outbound requests, upstream responses, and the small monad
                 in which the asynchronous handlers are written;
    - [Server] : the functions and handlers of server.js, in source order;
    - the properties, at the end of the file. *)

From Stdlib Require Import List NArith ZArith Bool Lia String Ascii.
From Stdlib Require Import DecimalN.
Import ListNotations.

Set Warnings "-register-all".
Open Scope N_scope.

(* ================================================================== *)
(** * JavaScript values and built-ins                                  *)
(* ================================================================== *)

Module JS.

(** A JavaScript string is a sequence of UTF-16 code units. *)
Definition jsstring := list N.

(** String literals of the source, written as Rocq strings. *)
Definition lit (s : string) : jsstring :=
  map N_of_ascii (list_ascii_of_string s).

Definition jsstring_eqb (a b : jsstring) : bool :=
  if list_eq_dec N.eq_dec a b then true else false.

(** ** Character classes *)

Definition between (lo hi c : N) : bool := (lo <=? c) && (c <=? hi).

Definition is_digit (c : N) : bool := between 48 57 c.
Definition is_upper (c : N) : bool := between 65 90 c.
Definition is_lower (c : N) : bool := between 97 122 c.
Definition is_alnum (c : N) : bool := is_lower c || is_upper c || is_digit c.

(** The class [a-zA-Z0-9._-] of the regular expression in [uploadToBucket]. *)
Definition safe_char (c : N) : bool :=
  is_lower c || is_upper c || is_digit c
  || (c =? 46) || (c =? 95) || (c =? 45).

(** WhiteSpace and LineTerminator code units, as stripped by
    [String.prototype.trim]. *)
Definition is_whitespace (c : N) : bool :=
  between 9 13 c || (c =? 32) || (c =? 160) || (c =? 5760)
  || between 8192 8202 c || (c =? 8232) || (c =? 8233) || (c =? 8239)
  || (c =? 8287) || (c =? 12288) || (c =? 65279).

(** Characters [encodeURIComponent] leaves as they are. *)
Definition uri_unreserved (c : N) : bool :=
  is_alnum c
  || (c =? 45) || (c =? 95) || (c =? 46) || (c =? 33) || (c =? 126)
  || (c =? 42) || (c =? 39) || (c =? 40) || (c =? 41).

Definition is_high_surrogate (c : N) : bool := between 55296 56319 c.
Definition is_low_surrogate (c : N) : bool := between 56320 57343 c.

(** ** Numbers to strings *)

Fixpoint uint_chars (d : Decimal.uint) : jsstring :=
  match d with
  | Decimal.Nil => []
  | Decimal.D0 d => 48 :: uint_chars d
  | Decimal.D1 d => 49 :: uint_chars d
  | Decimal.D2 d => 50 :: uint_chars d
  | Decimal.D3 d => 51 :: uint_chars d
  | Decimal.D4 d => 52 :: uint_chars d
  | Decimal.D5 d => 53 :: uint_chars d
  | Decimal.D6 d => 54 :: uint_chars d
  | Decimal.D7 d => 55 :: uint_chars d
  | Decimal.D8 d => 56 :: uint_chars d
  | Decimal.D9 d => 57 :: uint_chars d
  end.

(** [String(n)] for a non-negative integer below 10^21 (status codes and
    [Date.now()] are): its decimal digits. *)
Definition Number_toString (n : N) : jsstring := uint_chars (N.to_uint n).

Definition Integer_toString (z : Z) : jsstring :=
  match z with
  | Zneg p => 45 :: Number_toString (Npos p)
  | _ => Number_toString (Z.to_N z)
  end.

(** ** String methods *)

(** [a.join(sep)] *)
Fixpoint join (sep : jsstring) (parts : list jsstring) : jsstring :=
  match parts with
  | [] => []
  | [p] => p
  | p :: rest => p ++ sep ++ join sep rest
  end.

(** [s.split(',')]: the pieces between commas; never the empty array. *)
Fixpoint split_comma (s : jsstring) : list jsstring :=
  match s with
  | [] => [[]]
  | c :: rest =>
      if c =? 44 then [] :: split_comma rest
      else match split_comma rest with
           | [] => [[c]]
           | p :: ps => (c :: p) :: ps
           end
  end.

Fixpoint trimStart (s : jsstring) : jsstring :=
  match s with
  | [] => []
  | c :: rest => if is_whitespace c then trimStart rest else s
  end.

Definition trimEnd (s : jsstring) : jsstring := rev (trimStart (rev s)).

(** [s.trim()] *)
Definition trim (s : jsstring) : jsstring := trimEnd (trimStart s).

(** [Boolean(s)] for a string: the empty string is the only falsy one. *)
Definition truthy (s : jsstring) : bool :=
  match s with [] => false | _ :: _ => true end.

(** [!v] for a value that is a string or [undefined]. *)
Definition falsy (v : option jsstring) : bool :=
  match v with
  | None => true
  | Some s => negb (truthy s)
  end.

(** [a.includes(s)] on an array of strings. *)
Definition includes (a : list jsstring) (s : jsstring) : bool :=
  existsb (jsstring_eqb s) a.

(** [s.replace(/[^a-zA-Z0-9._-]/g, '_')]: without the [u] flag the pattern
    is tried at every code unit. *)
Definition replace_unsafe (s : jsstring) : jsstring :=
  map (fun c => if safe_char c then c else 95) s.

(** ** UTF-8 *)

Definition utf8_code_point (cp : N) : list N :=
  if cp <? 128 then [cp]
  else if cp <? 2048 then
    [N.lor 192 (N.shiftr cp 6); N.lor 128 (N.land cp 63)]
  else if cp <? 65536 then
    [N.lor 224 (N.shiftr cp 12);
     N.lor 128 (N.land (N.shiftr cp 6) 63);
     N.lor 128 (N.land cp 63)]
  else
    [N.lor 240 (N.shiftr cp 18);
     N.lor 128 (N.land (N.shiftr cp 12) 63);
     N.lor 128 (N.land (N.shiftr cp 6) 63);
     N.lor 128 (N.land cp 63)].

Definition surrogate_pair (hi lo : N) : N :=
  65536 + N.shiftl (hi - 55296) 10 + (lo - 56320).

(** The bytes of [Buffer.from(s)] (encoding 'utf8'): a surrogate that has
    no partner becomes U+FFFD. *)
Fixpoint utf8_encode (s : jsstring) : list N :=
  match s with
  | [] => []
  | c :: rest =>
      if is_high_surrogate c then
        match rest with
        | d :: rest' =>
            if is_low_surrogate d
            then utf8_code_point (surrogate_pair c d) ++ utf8_encode rest'
            else [239; 191; 189] ++ utf8_encode rest
        | [] => [239; 191; 189]
        end
      else if is_low_surrogate c then [239; 191; 189] ++ utf8_encode rest
      else utf8_code_point c ++ utf8_encode rest
  end.

(** ** Base64 *)

Definition base64_digit (i : N) : N :=
  if i <? 26 then 65 + i
  else if i <? 52 then 97 + (i - 26)
  else if i <? 62 then 48 + (i - 52)
  else if i =? 62 then 43
  else 47.

(** [buf.toString('base64')] *)
Fixpoint base64 (bytes : list N) : jsstring :=
  match bytes with
  | [] => []
  | [a] =>
      [base64_digit (N.shiftr a 2);
       base64_digit (N.shiftl (N.land a 3) 4);
       61; 61]
  | [a; b] =>
      [base64_digit (N.shiftr a 2);
       base64_digit (N.lor (N.shiftl (N.land a 3) 4) (N.shiftr b 4));
       base64_digit (N.shiftl (N.land b 15) 2);
       61]
  | a :: b :: c :: rest =>
      base64_digit (N.shiftr a 2)
      :: base64_digit (N.lor (N.shiftl (N.land a 3) 4) (N.shiftr b 4))
      :: base64_digit (N.lor (N.shiftl (N.land b 15) 2) (N.shiftr c 6))
      :: base64_digit (N.land c 63)
      :: base64 rest
  end.

(** ** Percent-encoding *)

Definition hex_digit (i : N) : N :=
  if i <? 10 then 48 + i else 65 + (i - 10).

Definition percent_byte (b : N) : jsstring :=
  [37; hex_digit (N.shiftr b 4); hex_digit (N.land b 15)].

Definition percent_bytes (bytes : list N) : jsstring :=
  flat_map percent_byte bytes.

(** [encodeURIComponent(s)]; [None] when it throws a URIError, which it does
    on a surrogate without its partner. *)
Fixpoint encodeURIComponent (s : jsstring) : option jsstring :=
  match s with
  | [] => Some []
  | c :: rest =>
      if uri_unreserved c then
        option_map (cons c) (encodeURIComponent rest)
      else if is_high_surrogate c then
        match rest with
        | d :: rest' =>
            if is_low_surrogate d
            then option_map
                   (app (percent_bytes (utf8_code_point (surrogate_pair c d))))
                   (encodeURIComponent rest')
            else None
        | [] => None
        end
      else if is_low_surrogate c then None
      else option_map (app (percent_bytes (utf8_code_point c)))
                      (encodeURIComponent rest)
  end.

(** A string in which every surrogate has its partner, as every string
    decoded from a URL path is. *)
Fixpoint well_formed (s : jsstring) : bool :=
  match s with
  | [] => true
  | c :: rest =>
      if is_high_surrogate c then
        match rest with
        | d :: rest' => is_low_surrogate d && well_formed rest'
        | [] => false
        end
      else negb (is_low_surrogate c) && well_formed rest
  end.

(** ** JSON values

    What [JSON.parse] returns.  Numbers are restricted to integers, written
    in decimal by [String]; an object keeps its members in source order. *)
Inductive json : Type :=
| JNull
| JBool (b : bool)
| JNum (z : Z)
| JStr (s : jsstring)
| JArr (items : list json)
| JObj (members : list (jsstring * json)).

(** A value read from a parsed body: a JSON value or [undefined]. *)
Inductive value : Type :=
| Undefined
| Val (j : json).

(** [String(j)], as a template literal applies it. *)
Fixpoint json_toString (j : json) : jsstring :=
  match j with
  | JNull => lit "null"
  | JBool true => lit "true"
  | JBool false => lit "false"
  | JNum z => Integer_toString z
  | JStr s => s
  | JArr items =>
      join [44]
        (map (fun e => match e with
                       | JNull => []
                       | _ => json_toString e
                       end) items)
  | JObj _ => lit "[object Object]"
  end.

Definition toString (v : value) : jsstring :=
  match v with
  | Undefined => lit "undefined"
  | Val j => json_toString j
  end.

(** The member a parsed object holds under [key]; when the text repeated
    the key, the last occurrence. *)
Fixpoint own_member (members : list (jsstring * json)) (key : jsstring)
  : value :=
  match members with
  | [] => Undefined
  | (k, v) :: rest =>
      match own_member rest key with
      | Val w => Val w
      | Undefined => if jsstring_eqb k key then Val v else Undefined
      end
  end.

(** [j.key] for a key that no built-in prototype defines ([access_token],
    [objectId]); [None] when the read throws a TypeError, which it does on
    [null]. *)
Definition member (j : json) (key : jsstring) : option value :=
  match j with
  | JNull => None
  | JObj members => Some (own_member members key)
  | _ => Some Undefined
  end.

(** ** Errors *)

(** An [Error] object: its message and its [status] property, when one was
    assigned. *)
Record jserror : Type := mkError {
  message : jsstring;
  status : option N
}.

(** Failures raised by built-ins rather than by the server's own [throw]. *)
Inductive builtin_failure : Type :=
| FetchRejected          (* fetch: the network call failed *)
| BodyNotJson            (* res.json(): SyntaxError *)
| MemberOfNullish        (* property read on null or undefined: TypeError *)
| BufferArgument         (* Buffer.from: unsupported argument: TypeError *)
| MalformedURI.          (* encodeURIComponent: URIError *)

(** The parts of the platform the embedding leaves open: Unicode case
    mapping, the wording of the engine's own error messages, and
    [Buffer.from] on arrays and objects. *)
Class Runtime : Type := {
  toLowerCase : jsstring -> jsstring;
  engine_message : builtin_failure -> jsstring;
  Buffer_from_object : json -> option (list N)
}.

Definition raised `{Runtime} (f : builtin_failure) : jserror :=
  {| message := engine_message f; status := None |}.

(** [Buffer.from(v)]: the UTF-8 bytes of a string; a TypeError ([None]) on
    [undefined], [null], booleans and numbers. *)
Definition Buffer_from `{Runtime} (v : value) : option (list N) :=
  match v with
  | Val (JStr s) => Some (utf8_encode s)
  | Val (JArr items) => Buffer_from_object (JArr items)
  | Val (JObj members) => Buffer_from_object (JObj members)
  | _ => None
  end.

End JS.

(* ================================================================== *)
(** * Outbound HTTP and the handlers' monad                            *)
(* ================================================================== *)

Module Http.
Import JS.

Inductive http_method : Type := GET | POST | PUT.

(** The [body] option of a [fetch] call, before serialisation: the
    [URLSearchParams] pairs, the value given to [JSON.stringify], or the
    bytes of a buffer. *)
Inductive payload : Type :=
| NoBody
| Form (fields : list (jsstring * jsstring))
| Json (j : json)
| Binary (bytes : list N).

Record request : Type := mkRequest {
  method : http_method;
  url : jsstring;
  headers : list (jsstring * jsstring);
  body : payload
}.

(** What the server reads of an upstream [Response]: [res.status],
    [await res.text()], and [await res.json()], which is [None] when the
    body is not JSON. *)
Record response : Type := mkResponse {
  res_status : N;
  res_text : jsstring;
  res_json : option json
}.

(** [res.ok] *)
Definition ok (r : response) : bool := between 200 299 (res_status r).

(** How one [fetch] ends: with a response of any status, or rejected. *)
Inductive reply : Type :=
| Reply (r : response)
| Rejected.

(** What Express sends back: [res.status(code).json(content)]. *)
Record client_response : Type := mkClientResponse {
  code : N;
  content : json
}.

(** An asynchronous function: it returns, throws, awaits a [fetch], or
    reads the clock. *)
Inductive prog (A : Type) : Type :=
| Ret (a : A)
| Throw (e : jserror)
| Fetch (rq : request) (k : reply -> prog A)
| DateNow (k : N -> prog A).

Arguments Ret {A} a.
Arguments Throw {A} e.
Arguments Fetch {A} rq k.
Arguments DateNow {A} k.

Fixpoint bind {A B : Type} (p : prog A) (f : A -> prog B) : prog B :=
  match p with
  | Ret a => f a
  | Throw e => Throw e
  | Fetch rq k => Fetch rq (fun rp => bind (k rp) f)
  | DateNow k => DateNow (fun t => bind (k t) f)
  end.

(** [try { p } catch (err) { h err }] *)
Fixpoint catch {A : Type} (p : prog A) (h : jserror -> prog A) : prog A :=
  match p with
  | Ret a => Ret a
  | Throw e => h e
  | Fetch rq k => Fetch rq (fun rp => catch (k rp) h)
  | DateNow k => DateNow (fun t => catch (k t) h)
  end.

Declare Scope prog_scope.
Delimit Scope prog_scope with prog.
Notation "x <- p ;; q" := (bind p (fun x => q))
  (at level 61, p at next level, right associativity) : prog_scope.
Notation "p ;; q" := (bind p (fun _ => q))
  (at level 61, right associativity) : prog_scope.

(** [await fetch(url, options)] *)
Definition fetch `{Runtime} (rq : request) : prog response :=
  Fetch rq (fun rp =>
    match rp with
    | Reply r => Ret r
    | Rejected => Throw (raised FetchRejected)
    end).

(** [await res.json()] *)
Definition json_of `{Runtime} (r : response) : prog json :=
  match res_json r with
  | Some j => Ret j
  | None => Throw (raised BodyNotJson)
  end.

(** A built-in that may throw. *)
Definition builtin `{Runtime} {A : Type} (f : builtin_failure) (r : option A)
  : prog A :=
  match r with
  | Some a => Ret a
  | None => Throw (raised f)
  end.

(** How a run ended. *)
Inductive outcome (A : Type) : Type :=
| Returned (a : A)
| Thrown (e : jserror)
| Starved.              (* a fetch was issued and the script had no reply *)

Arguments Returned {A} a.
Arguments Thrown {A} e.
Arguments Starved {A}.

(** Runs [p] against an upstream that answers the successive [fetch] calls
    with the replies of [script], at a time when [Date.now()] is [now].
    The second component lists the requests issued, in order. *)
Fixpoint exec {A : Type} (p : prog A) (now : N) (script : list reply)
  : outcome A * list request :=
  match p with
  | Ret a => (Returned a, [])
  | Throw e => (Thrown e, [])
  | Fetch rq k =>
      match script with
      | [] => (Starved, [rq])
      | rp :: rest =>
          let (o, calls) := exec (k rp) now rest in (o, rq :: calls)
      end
  | DateNow k => exec (k now) now script
  end.

(** An upstream with a state of its own: it answers each request from its
    current state and moves to the next. *)
Section Upstream.

Variable state : Type.
Variable answer : state -> request -> reply * state.

(** Runs [p] against the upstream started in state [st]. *)
Fixpoint serve {A : Type} (p : prog A) (now : N) (st : state)
  : outcome A * list request :=
  match p with
  | Ret a => (Returned a, [])
  | Throw e => (Thrown e, [])
  | Fetch rq k =>
      let (rp, st') := answer st rq in
      let (o, calls) := serve (k rp) now st' in (o, rq :: calls)
  | DateNow k => serve (k now) now st
  end.

(** The replies the upstream gives along that run. *)
Fixpoint replies_of {A : Type} (p : prog A) (now : N) (st : state)
  : list reply :=
  match p with
  | Ret _ => []
  | Throw _ => []
  | Fetch rq k =>
      let (rp, st') := answer st rq in rp :: replies_of (k rp) now st'
  | DateNow k => replies_of (k now) now st
  end.

End Upstream.

End Http.

(* ================================================================== *)
(** * server.js                                                        *)
(* ================================================================== *)

Module Server.
Import JS Http.
Local Open Scope prog_scope.

(** [process.env], for the variables the server reads; [None] is an unset
    variable. *)
Record process_env : Type := mkEnv {
  APS_CLIENT_ID : option jsstring;
  APS_CLIENT_SECRET : option jsstring;
  APS_BUCKET_KEY : option jsstring;
  env_APS_REGION : option jsstring;
  env_APS_ALLOWED_ORIGINS : option jsstring
}.

(** [req.file] as multer's memory storage fills it. *)
Record file : Type := mkFile {
  originalname : jsstring;
  buffer : list N
}.

(** [upload.single('file')] of multer: the file part of the multipart
    body, when there is one, becomes [req.file]; a part that came without
    a filename is not attached, and [req.file] stays undefined. *)
Definition upload_single (part : option file) : option file :=
  match part with
  | Some f => if truthy (originalname f) then Some f else None
  | None => None
  end.

Definition APS_BASE : jsstring := lit "https://developer.api.autodesk.com".

(** A destructuring default applies to an unset variable only. *)
Definition default (d : jsstring) (v : option jsstring) : jsstring :=
  match v with
  | Some s => s
  | None => d
  end.

(** An environment value where a string is expected. *)
Definition String_of (v : option jsstring) : jsstring :=
  default (lit "undefined") v.

(** [file.originalname.replace(/[^a-zA-Z0-9._-]/g, '_')] *)
Definition safeName (originalname : jsstring) : jsstring :=
  replace_unsafe originalname.

(** The name under which a file is stored: [`${Date.now()}-${safeName}`]. *)
Definition objectName (now : N) (originalname : jsstring) : jsstring :=
  Number_toString now ++ lit "-" ++ safeName originalname.

(** [err.status || 500] and [err.message || 'Server error'] *)
Definition error_middleware (err : jserror) : client_response :=
  {| code := match status err with
             | Some s => if s =? 0 then 500 else s
             | None => 500
             end;
     content := JObj [(lit "error",
                       JStr (if truthy (message err) then message err
                             else lit "Server error"))] |}.

Section App.

Context {rt : Runtime}.
Variable env : process_env.

Definition APS_REGION : jsstring := default (lit "US") (env_APS_REGION env).

Definition APS_ALLOWED_ORIGINS : jsstring :=
  default [] (env_APS_ALLOWED_ORIGINS env).

Definition allowedOrigins : list jsstring :=
  filter truthy (map trim (split_comma APS_ALLOWED_ORIGINS)).

(** The [origin] callback given to [cors]: [inl tt] is [callback(null, true)],
    [inr e] is [callback(e)]. *)
Definition cors_origin (origin : option jsstring) : unit + jserror :=
  if falsy origin || (N.of_nat (List.length allowedOrigins) =? 0) then inl tt
  else if match origin with
          | Some o => includes allowedOrigins o
          | None => false
          end then inl tt
  else inr {| message := lit "CORS not allowed"; status := None |}.

Definition missing_vars : list jsstring :=
  (if falsy (APS_CLIENT_ID env) then [lit "APS_CLIENT_ID"] else [])
  ++ (if falsy (APS_CLIENT_SECRET env) then [lit "APS_CLIENT_SECRET"] else [])
  ++ (if falsy (APS_BUCKET_KEY env) then [lit "APS_BUCKET_KEY"] else []).

Definition requireEnv : prog unit :=
  let missing := missing_vars in
  if 0 <? N.of_nat (List.length missing) then
    Throw {| message := lit "Missing env vars: " ++ join (lit ", ") missing;
             status := Some 500 |}
  else Ret tt.

Definition token_request : request :=
  {| method := POST;
     url := APS_BASE ++ lit "/authentication/v2/token";
     headers := [(lit "Content-Type",
                  lit "application/x-www-form-urlencoded")];
     body := Form
       [(lit "client_id", String_of (APS_CLIENT_ID env));
        (lit "client_secret", String_of (APS_CLIENT_SECRET env));
        (lit "grant_type", lit "client_credentials");
        (lit "scope",
         lit "data:read data:write data:create bucket:create bucket:read")] |}.

Definition getAccessToken : prog json :=
  requireEnv ;;
  res <- fetch token_request ;;
  if negb (ok res) then
    Throw {| message := lit "Token request failed: "
                        ++ Number_toString (res_status res)
                        ++ lit " " ++ res_text res;
             status := Some (res_status res) |}
  else json_of res.

(** [APS_BUCKET_KEY.toLowerCase()] *)
Definition bucket_key : prog jsstring :=
  builtin MemberOfNullish (option_map toLowerCase (APS_BUCKET_KEY env)).

Definition bearer (token : value) : jsstring * jsstring :=
  (lit "Authorization", lit "Bearer " ++ toString token).

Definition details_request (bucketKey : jsstring) (token : value) : request :=
  {| method := GET;
     url := APS_BASE ++ lit "/oss/v2/buckets/" ++ bucketKey ++ lit "/details";
     headers := [bearer token];
     body := NoBody |}.

Definition create_request (bucketKey : jsstring) (token : value) : request :=
  {| method := POST;
     url := APS_BASE ++ lit "/oss/v2/buckets";
     headers := [bearer token;
                 (lit "Content-Type", lit "application/json");
                 (lit "x-ads-region", APS_REGION)];
     body := Json (JObj [(lit "bucketKey", JStr bucketKey);
                         (lit "policyKey", JStr (lit "persistent"))]) |}.

Definition ensureBucket (token : value) : prog unit :=
  bucketKey <- bucket_key ;;
  details <- fetch (details_request bucketKey token) ;;
  if ok details then Ret tt
  else if negb (res_status details =? 404) then
    Throw {| message := lit "Bucket check failed: "
                        ++ Number_toString (res_status details)
                        ++ lit " " ++ res_text details;
             status := None |}
  else
    res <- fetch (create_request bucketKey token) ;;
    if negb (ok res) then
      Throw {| message := lit "Bucket create failed: "
                          ++ Number_toString (res_status res)
                          ++ lit " " ++ res_text res;
               status := None |}
    else Ret tt.

Definition upload_request (bucketKey escapedName : jsstring) (token : value)
  (f : file) : request :=
  {| method := PUT;
     url := APS_BASE ++ lit "/oss/v2/buckets/" ++ bucketKey
            ++ lit "/objects/" ++ escapedName;
     headers := [bearer token;
                 (lit "Content-Type", lit "application/octet-stream")];
     body := Binary (buffer f) |}.

Definition uploadToBucket (token : value) (f : file) : prog value :=
  DateNow (fun now =>
    let objectName := objectName now (originalname f) in
    bucketKey <- bucket_key ;;
    escaped <- builtin MalformedURI (encodeURIComponent objectName) ;;
    res <- fetch (upload_request bucketKey escaped token f) ;;
    if negb (ok res) then
      Throw {| message := lit "Upload failed: "
                          ++ Number_toString (res_status res)
                          ++ lit " " ++ res_text res;
               status := None |}
    else
      data <- json_of res ;;
      builtin MemberOfNullish (member data (lit "objectId"))).

Definition job_request (token : value) (urn : jsstring) : request :=
  {| method := POST;
     url := APS_BASE ++ lit "/modelderivative/v2/designdata/job";
     headers := [bearer token;
                 (lit "Content-Type", lit "application/json")];
     body := Json
       (JObj [(lit "input", JObj [(lit "urn", JStr urn)]);
              (lit "output",
               JObj [(lit "formats",
                      JArr [JObj [(lit "type", JStr (lit "svf2"));
                                  (lit "views",
                                   JArr [JStr (lit "2d");
                                         JStr (lit "3d")])]])])]) |}.

Definition startTranslation (token : value) (urn : jsstring) : prog unit :=
  res <- fetch (job_request token urn) ;;
  if negb (ok res) then
    Throw {| message := lit "Translate failed: "
                        ++ Number_toString (res_status res)
                        ++ lit " " ++ res_text res;
             status := None |}
  else Ret tt.

(** [tokenData.access_token] *)
Definition access_token (tokenData : json) : prog value :=
  builtin MemberOfNullish (member tokenData (lit "access_token")).

(** A route handler: the body of its [try], with [catch (err) { next(err) }]
    leading to the error middleware. *)
Definition handler (body : prog client_response) : prog client_response :=
  catch body (fun err => Ret (error_middleware err)).

(** [app.get('/api/aps/token', ...)] *)
Definition get_token : prog client_response :=
  handler (
    token <- getAccessToken ;;
    Ret {| code := 200; content := token |}).

(** [app.post('/api/aps/upload-translate', upload.single('file'), ...)];
    the argument is [req.file]. *)
Definition post_upload_translate (req_file : option file)
  : prog client_response :=
  handler (
    match req_file with
    | None =>
        Ret {| code := 400;
               content := JObj [(lit "error",
                                 JStr (lit "No file uploaded."))] |}
    | Some f =>
        tokenData <- getAccessToken ;;
        token <- access_token tokenData ;;
        ensureBucket token ;;
        token <- access_token tokenData ;;
        objectId <- uploadToBucket token f ;;
        bytes <- builtin BufferArgument (Buffer_from objectId) ;;
        let urn := base64 bytes in
        token <- access_token tokenData ;;
        startTranslation token urn ;;
        Ret {| code := 200; content := JObj [(lit "urn", JStr urn)] |}
    end).

Definition manifest_request (escapedUrn : jsstring) (token : value)
  : request :=
  {| method := GET;
     url := APS_BASE ++ lit "/modelderivative/v2/designdata/"
            ++ escapedUrn ++ lit "/manifest";
     headers := [bearer token];
     body := NoBody |}.

(** [app.get('/api/aps/manifest/:urn', ...)]; the argument is
    [req.params.urn]. *)
Definition get_manifest (urn : jsstring) : prog client_response :=
  handler (
    tokenData <- getAccessToken ;;
    escaped <- builtin MalformedURI (encodeURIComponent urn) ;;
    token <- access_token tokenData ;;
    result <- fetch (manifest_request escaped token) ;;
    data <- json_of result ;;
    Ret {| code := res_status result; content := data |}).

(** The three routes of the application. *)
Inductive route : Type :=
| TokenRoute
| UploadTranslateRoute (req_file : option file)
| ManifestRoute (urn : jsstring).

(** An incoming request: its [Origin] header, when it has one, and the
    route it is for. *)
Record client_request : Type := mkClientRequest {
  origin : option jsstring;
  target : route
}.

Definition dispatch (r : route) : prog client_response :=
  match r with
  | TokenRoute => get_token
  | UploadTranslateRoute req_file => post_upload_translate req_file
  | ManifestRoute urn => get_manifest urn
  end.

(** The middleware chain: the [cors] guard first; when its origin callback
    reports an error the request goes to the error middleware and past
    every route. *)
Definition app (req : client_request) : prog client_response :=
  match cors_origin (origin req) with
  | inl _ => dispatch (target req)
  | inr err => Ret (error_middleware err)
  end.

End App.

End Server.

(* ================================================================== *)
(** * Vocabulary of the properties                                     *)
(* ================================================================== *)

Module Spec.
Import JS Http Server.

(** [t] occurs in [s] as a contiguous piece. *)
Definition occurs_in (t s : jsstring) : Prop :=
  exists before after, s = before ++ t ++ after.

(** The language of [^\d+-[A-Za-z0-9._-]+$]. *)
Definition stored_name_pattern (s : jsstring) : Prop :=
  exists digits tail,
    s = digits ++ [45] ++ tail
    /\ digits <> [] /\ Forall (fun c => is_digit c = true) digits
    /\ tail <> [] /\ Forall (fun c => safe_char c = true) tail.

(** The three required variables are set and not empty. *)
Definition configured (env : process_env) : Prop :=
  falsy (APS_CLIENT_ID env) = false
  /\ falsy (APS_CLIENT_SECRET env) = false
  /\ falsy (APS_BUCKET_KEY env) = false.

(** An error surfaces an upstream response when its message holds the
    response's status code, in decimal, and the text of its body. *)
Definition surfaces (r : response) (msg : jsstring) : Prop :=
  occurs_in (Number_toString (res_status r)) msg
  /\ occurs_in (res_text r) msg.

(** The body Express sends for an error: [{ error: msg }]. *)
Definition error_body (msg : jsstring) : json :=
  JObj [(lit "error", JStr msg)].

(** A string of whitespace only. *)
Definition all_whitespace (s : jsstring) : Prop :=
  Forall (fun c => is_whitespace c = true) s.

(** A string of commas and whitespace only. *)
Definition blank (s : jsstring) : Prop :=
  Forall (fun c => c = 44 \/ is_whitespace c = true) s.

(** A string that neither starts nor ends with whitespace. *)
Definition trimmed (s : jsstring) : Prop :=
  (forall c rest, s = c :: rest -> is_whitespace c = false)
  /\ (forall front c, s = front ++ [c] -> is_whitespace c = false).

(** A token response the chain can go on with: 2xx, with a JSON body that
    is not [null], whose [access_token] is [token]. *)
Definition grants (r : response) (token : value) : Prop :=
  ok r = true
  /\ exists tokenData,
       res_json r = Some tokenData
       /\ member tokenData (lit "access_token") = Some token.

(** The outbound calls of the upload-translate chain. *)
Inductive step : Type :=
| TokenStep
| DetailsStep
| CreateStep
| UploadStep
| JobStep.

(** [leads_to token s replies]: after the upstream answered [replies], all
    of them letting the chain go on, the next call of the chain is the one
    of step [s]. *)
Inductive leads_to `{Runtime} (token : value) : step -> list response -> Prop :=
| to_token :
    leads_to token TokenStep []
| to_details r :
    grants r token ->
    leads_to token DetailsStep [r]
| to_create replies details :
    leads_to token DetailsStep replies ->
    res_status details = 404 ->
    leads_to token CreateStep (replies ++ [details])
| to_upload_existing replies details :
    leads_to token DetailsStep replies ->
    ok details = true ->
    leads_to token UploadStep (replies ++ [details])
| to_upload_created replies created :
    leads_to token CreateStep replies ->
    ok created = true ->
    leads_to token UploadStep (replies ++ [created])
| to_job replies uploaded data objectId bytes :
    leads_to token UploadStep replies ->
    ok uploaded = true ->
    res_json uploaded = Some data ->
    member data (lit "objectId") = Some objectId ->
    Buffer_from objectId = Some bytes ->
    leads_to token JobStep (replies ++ [uploaded]).

(** The message the error middleware sends for an error whose message is
    [msg]: [msg || 'Server error']. *)
Definition rendered_message (msg : jsstring) : jsstring :=
  if truthy msg then msg else lit "Server error".

(** [at_most n p]: along every path, whatever the replies and the clock,
    [p] awaits at most [n] fetches. *)
Inductive at_most {A : Type} : nat -> prog A -> Prop :=
| at_most_ret n a : at_most n (Ret a)
| at_most_throw n e : at_most n (Throw e)
| at_most_fetch n rq k :
    (forall rp, at_most n (k rp)) -> at_most (S n) (Fetch rq k)
| at_most_now n k :
    (forall t, at_most n (k t)) -> at_most n (DateNow k).


(** The base64 alphabet and its padding: [A-Za-z0-9+/=]. *)
Definition base64_char (c : N) : bool :=
  is_upper c || is_lower c || is_digit c || (c =? 43) || (c =? 47) || (c =? 61).

(** What a percent-escaped string is made of: unreserved characters, and
    [%] followed by upper-case hexadecimal digits. *)
Definition escaped_char (c : N) : bool :=
  uri_unreserved c || (c =? 37).

(** A code unit is a 16-bit number. *)
Definition code_units (s : jsstring) : Prop := Forall (fun c => c < 65536) s.

(** A byte string. *)
Definition octets (bytes : list N) : Prop := Forall (fun b => b < 256) bytes.

End Spec.

(** Concrete inputs on which the properties are exercised. *)
Module Samples.
Import JS Http Server.

(** A runtime for ASCII data. *)
Definition ascii_runtime : Runtime :=
  {| toLowerCase := map (fun c => if is_upper c then c + 32 else c);
     engine_message := fun _ => lit "engine error";
     Buffer_from_object := fun _ => None |}.

Definition env : process_env :=
  {| APS_CLIENT_ID := Some (lit "client");
     APS_CLIENT_SECRET := Some (lit "secret");
     APS_BUCKET_KEY := Some (lit "Models");
     env_APS_REGION := None;
     env_APS_ALLOWED_ORIGINS :=
       Some (lit "https://a.example, https://b.example") |}.

(** An allow-list setting of commas, spaces and a tab. *)
Definition blank_origins : process_env :=
  {| APS_CLIENT_ID := Some (lit "client");
     APS_CLIENT_SECRET := Some (lit "secret");
     APS_BUCKET_KEY := Some (lit "models");
     env_APS_REGION := None;
     env_APS_ALLOWED_ORIGINS := Some [32; 44; 32; 32; 44; 9; 44; 44; 32] |}.

Definition unconfigured : process_env :=
  {| APS_CLIENT_ID := None;
     APS_CLIENT_SECRET := Some [];
     APS_BUCKET_KEY := Some (lit "models");
     env_APS_REGION := None;
     env_APS_ALLOWED_ORIGINS := None |}.

Definition drawing : file :=
  {| originalname := lit "floor plan (1).dwg"; buffer := [68; 87; 71] |}.

Definition bundle : json :=
  JObj [(lit "access_token", JStr (lit "t0k3n"));
        (lit "expires_in", JNum 3599)].

Definition token_ok : response :=
  {| res_status := 200; res_text := []; res_json := Some bundle |}.

Definition token : value := Val (JStr (lit "t0k3n")).

Definition plain (status : N) (text : string) : response :=
  {| res_status := status; res_text := lit text; res_json := None |}.

Definition uploaded : response :=
  {| res_status := 200; res_text := [];
     res_json := Some (JObj [(lit "objectId", JStr (lit "abc"))]) |}.

Definition in_progress : response :=
  {| res_status := 202; res_text := [];
     res_json := Some (JObj [(lit "status", JStr (lit "inprogress"))]) |}.


End Samples.

(* ================================================================== *)
(** * Properties                                                       *)
(* ================================================================== *)

Import JS Http Server Spec.

Arguments lit : simpl never.

(** ** Strings *)

Lemma occurs_in_refl (s : jsstring) : occurs_in s s.
Proof. exists [], []. now rewrite app_nil_r. Qed.

Lemma occurs_in_app_l (t s pre : jsstring) :
  occurs_in t s -> occurs_in t (pre ++ s).
Proof.
  intros (b & a & ->). exists (pre ++ b), a. now rewrite <- app_assoc.
Qed.

Lemma occurs_in_app_r (t s post : jsstring) :
  occurs_in t s -> occurs_in t (s ++ post).
Proof.
  intros (b & a & ->). exists b, (a ++ post). now rewrite <- !app_assoc.
Qed.

Lemma occurs_in_join (sep : jsstring) (parts : list jsstring) (p : jsstring) :
  In p parts -> occurs_in p (join sep parts).
Proof.
  induction parts as [|q rest IH]; intros Hin; [easy|].
  destruct rest as [|q' rest'].
  - destruct Hin as [->|[]]. apply occurs_in_refl.
  - change (join sep (q :: q' :: rest'))
      with (q ++ sep ++ join sep (q' :: rest')).
    destruct Hin as [->|Hin].
    + apply occurs_in_app_r, occurs_in_refl.
    + now apply occurs_in_app_l, occurs_in_app_l, IH.
Qed.

Lemma truthy_nonempty (s : jsstring) : truthy s = true <-> s <> [].
Proof. destruct s; simpl; split; congruence. Qed.

Lemma jsstring_eqb_eq (a b : jsstring) : jsstring_eqb a b = true <-> a = b.
Proof.
  unfold jsstring_eqb. destruct (list_eq_dec N.eq_dec a b); split; congruence.
Qed.

Lemma includes_In (a : list jsstring) (s : jsstring) :
  includes a s = true <-> In s a.
Proof.
  unfold includes. rewrite existsb_exists. split.
  - intros (x & Hin & Heq). apply jsstring_eqb_eq in Heq. now subst.
  - intros Hin. exists s. split; [easy|]. now apply jsstring_eqb_eq.
Qed.

(** ** The handlers' monad *)

Lemma exec_bind {A B : Type} (p : prog A) (f : A -> prog B) (now : N) :
  forall script,
    exec (bind p f) now script =
    match exec p now script with
    | (Returned a, calls) =>
        let (o, more) := exec (f a) now (skipn (List.length calls) script) in
        (o, calls ++ more)
    | (Thrown e, calls) => (Thrown e, calls)
    | (Starved, calls) => (Starved, calls)
    end.
Proof.
  induction p as [a|e|rq k IH|k IH]; intros script; simpl.
  - now destruct (exec (f a) now script).
  - reflexivity.
  - destruct script as [|rp rest]; [reflexivity|].
    rewrite IH. destruct (exec (k rp) now rest) as [[a|e|] calls]; simpl; auto.
    now destruct (exec (f a) now (skipn (List.length calls) rest)).
  - apply IH.
Qed.

Lemma exec_handler (body : prog client_response) (now : N) :
  forall script,
    exec (handler body) now script =
    match exec body now script with
    | (Thrown e, calls) => (Returned (error_middleware e), calls)
    | other => other
    end.
Proof.
  unfold handler.
  induction body as [a|e|rq k IH|k IH]; intros script; simpl; auto.
  destruct script as [|rp rest]; [reflexivity|].
  rewrite IH. now destruct (exec (k rp) now rest) as [[a|e|] calls].
Qed.

(** A run against an upstream is the run against the script of the replies
    that upstream gives; what holds for every script holds for every
    upstream. *)
Lemma serve_is_exec {state A : Type}
  (answer : state -> request -> reply * state) (p : prog A) (now : N) :
  forall st,
    serve state answer p now st
    = exec p now (replies_of state answer p now st).
Proof.
  induction p as [a|e|rq k IH|k IH]; intros st; simpl; auto.
  destruct (answer st rq) as [rp st']. now rewrite IH.
Qed.

(** A handler always answers, unless the upstream stops replying. *)
Lemma handler_never_throws (body : prog client_response) (now : N) script e :
  fst (exec (handler body) now script) <> Thrown e.
Proof.
  rewrite exec_handler.
  now destruct (exec body now script) as [[a|e'|] calls].
Qed.

Section Properties.

Context {rt : Runtime}.
Variable env : process_env.

(** ** Configuration *)

Lemma configured_no_missing : configured env -> missing_vars env = [].
Proof.
  intros (H1 & H2 & H3). unfold missing_vars. now rewrite H1, H2, H3.
Qed.

Lemma requireEnv_configured : configured env -> requireEnv env = Ret tt.
Proof.
  intros H. unfold requireEnv. now rewrite configured_no_missing.
Qed.

Lemma requireEnv_missing :
  missing_vars env <> [] ->
  requireEnv env =
  Throw {| message := lit "Missing env vars: "
                      ++ join (lit ", ") (missing_vars env);
           status := Some 500 |}.
Proof.
  intros H. unfold requireEnv.
  destruct (missing_vars env) as [|m ms]; [congruence|]. reflexivity.
Qed.

Lemma configured_bucket_key :
  configured env -> exists key, APS_BUCKET_KEY env = Some key.
Proof.
  intros (_ & _ & H). destruct (APS_BUCKET_KEY env) as [key|]; [|discriminate].
  now exists key.
Qed.

End Properties.

Lemma truthy_lit_app (a : ascii) (s : string) (t : jsstring) :
  truthy (lit (String a s) ++ t) = true.
Proof. reflexivity. Qed.

(** ** The error middleware *)

Lemma error_middleware_with_status (msg : jsstring) (s : N) :
  s <> 0 -> truthy msg = true ->
  error_middleware {| message := msg; status := Some s |}
  = {| code := s; content := error_body msg |}.
Proof.
  intros Hs Hmsg. unfold error_middleware, error_body. cbn [status message].
  rewrite Hmsg. apply N.eqb_neq in Hs. now rewrite Hs.
Qed.

Lemma error_middleware_without_status (msg : jsstring) :
  truthy msg = true ->
  error_middleware {| message := msg; status := None |}
  = {| code := 500; content := error_body msg |}.
Proof.
  intros Hmsg. unfold error_middleware, error_body. cbn [status message].
  now rewrite Hmsg.
Qed.

(** ** The token endpoint without its configuration *)

(** C5.  Whenever at least one of APS_CLIENT_ID, APS_CLIENT_SECRET and
    APS_BUCKET_KEY is unset or empty, the token endpoint answers 500 with
    the error message "Missing env vars: " followed by the missing names,
    which therefore names each missing variable, and it issues no upstream
    call, whatever the upstream would have replied. *)
Theorem token_endpoint_reports_missing_config
  {rt : Runtime} (env : process_env) (now : N) (script : list reply) :
  falsy (APS_CLIENT_ID env) = true
  \/ falsy (APS_CLIENT_SECRET env) = true
  \/ falsy (APS_BUCKET_KEY env) = true ->
  exists msg,
    exec (get_token env) now script
    = (Returned {| code := 500; content := error_body msg |}, [])
    /\ msg = lit "Missing env vars: " ++ join (lit ", ") (missing_vars env)
    /\ (falsy (APS_CLIENT_ID env) = true ->
        occurs_in (lit "APS_CLIENT_ID") msg)
    /\ (falsy (APS_CLIENT_SECRET env) = true ->
        occurs_in (lit "APS_CLIENT_SECRET") msg)
    /\ (falsy (APS_BUCKET_KEY env) = true ->
        occurs_in (lit "APS_BUCKET_KEY") msg).
Proof.
  intros Hmissing.
  assert (Hne : missing_vars env <> []).
  { unfold missing_vars.
    destruct Hmissing as [H|[H|H]]; rewrite H;
      destruct (falsy (APS_CLIENT_ID env)),
               (falsy (APS_CLIENT_SECRET env)),
               (falsy (APS_BUCKET_KEY env)); discriminate. }
  eexists. split; [|split; [reflexivity|]].
  - unfold get_token. rewrite exec_handler.
    unfold getAccessToken. rewrite (requireEnv_missing env Hne).
    cbn [bind exec].
    rewrite error_middleware_with_status;
      [reflexivity|discriminate|apply truthy_lit_app].
  - repeat split; intros H;
      apply occurs_in_app_l, occurs_in_join;
      unfold missing_vars; rewrite H; rewrite !in_app_iff; simpl; auto.
Qed.

Lemma token_endpoint_reports_missing_config_witness :
  exists msg,
    exec (get_token (rt := Samples.ascii_runtime) Samples.unconfigured) 0
         [Reply Samples.token_ok]
    = (Returned {| code := 500; content := error_body msg |}, [])
    /\ msg = lit "Missing env vars: APS_CLIENT_ID, APS_CLIENT_SECRET".
Proof.
  destruct (token_endpoint_reports_missing_config
              (rt := Samples.ascii_runtime) Samples.unconfigured 0
              [Reply Samples.token_ok] (or_introl eq_refl))
    as (msg & Hrun & Hmsg & _).
  exists msg. split; [exact Hrun|]. rewrite Hmsg. reflexivity.
Defined.

(** ** Upload without a file *)

(** C3.  A POST to the upload-translate endpoint whose request has no file
    is answered 400 by the handler, and no upstream request is issued:
    neither by the handler, nor anywhere in the middleware chain, whatever
    the origin of the request and whatever the upstream would reply. *)
Theorem upload_translate_without_file
  {rt : Runtime} (env : process_env) (now : N) (script : list reply)
  (origin : option jsstring) :
  exec (post_upload_translate env None) now script
  = (Returned {| code := 400;
                 content := error_body (lit "No file uploaded.") |}, [])
  /\ snd (exec (app env {| origin := origin;
                           target := UploadTranslateRoute None |})
               now script) = [].
Proof.
  split; [reflexivity|].
  unfold app. cbn [Server.origin target].
  destruct (cors_origin env origin); reflexivity.
Qed.

(** ** The CORS guard *)

(** C9.  A request without an Origin header passes the CORS guard under
    every configuration, so also under a non-empty allow-list, and goes on
    to its route. *)
Theorem request_without_origin_is_accepted
  {rt : Runtime} (env : process_env) (r : route) :
  cors_origin env None = inl tt
  /\ app env {| origin := None; target := r |} = dispatch env r.
Proof. split; reflexivity. Qed.

Lemma cors_origin_rejects (env : process_env) (o : jsstring) :
  allowedOrigins env <> [] -> o <> [] -> ~ In o (allowedOrigins env) ->
  cors_origin env (Some o)
  = inr {| message := lit "CORS not allowed"; status := None |}.
Proof.
  intros Hlist Ho Hout. unfold cors_origin.
  destruct o as [|c o]; [congruence|].
  destruct (allowedOrigins env) as [|a l] eqn:E; [congruence|].
  cbn [falsy truthy negb orb List.length].
  replace (N.of_nat (S (List.length l)) =? 0) with false
    by (symmetry; apply N.eqb_neq; lia).
  destruct (includes (a :: l) (c :: o)) eqn:Hinc; [|reflexivity].
  apply includes_In in Hinc. contradiction.
Qed.

Lemma cors_origin_open (env : process_env) (origin : option jsstring) :
  allowedOrigins env = [] -> cors_origin env origin = inl tt.
Proof.
  intros E. unfold cors_origin. rewrite E. cbn [List.length N.of_nat N.eqb].
  now rewrite orb_true_r.
Qed.

(** C7, as the code has it.  Under a non-empty allow-list, a request whose
    Origin header is a non-empty string that is not an entry of the list
    is answered by the error middleware (500, "CORS not allowed") without
    being dispatched to any route; under an empty allow-list every request
    is dispatched, whatever its origin. *)
Theorem cors_guard_allow_list {rt : Runtime} (env : process_env) :
  (forall (o : jsstring) (r : route),
      allowedOrigins env <> [] -> o <> [] -> ~ In o (allowedOrigins env) ->
      cors_origin env (Some o)
      = inr {| message := lit "CORS not allowed"; status := None |}
      /\ app env {| origin := Some o; target := r |}
         = Ret {| code := 500;
                  content := error_body (lit "CORS not allowed") |})
  /\ (allowedOrigins env = [] ->
      forall req,
        cors_origin env (origin req) = inl tt
        /\ app env req = dispatch env (target req)).
Proof.
  split.
  - intros o r Hlist Ho Hout.
    pose proof (cors_origin_rejects env o Hlist Ho Hout) as Hrej.
    split; [exact Hrej|]. unfold app. cbn [origin target]. now rewrite Hrej.
  - intros E req. pose proof (cors_origin_open env (origin req) E) as Hopen.
    split; [exact Hopen|]. unfold app. now rewrite Hopen.
Qed.

Lemma cors_guard_allow_list_witness :
  app (rt := Samples.ascii_runtime) Samples.env
      {| origin := Some (lit "https://c.example"); target := TokenRoute |}
  = Ret {| code := 500; content := error_body (lit "CORS not allowed") |}
  /\ app (rt := Samples.ascii_runtime) Samples.unconfigured
         {| origin := Some (lit "https://c.example"); target := TokenRoute |}
     = dispatch (rt := Samples.ascii_runtime) Samples.unconfigured TokenRoute.
Proof.
  split.
  - apply (proj1 (cors_guard_allow_list (rt := Samples.ascii_runtime)
                    Samples.env)).
    + vm_compute. discriminate.
    + vm_compute. discriminate.
    + vm_compute. intros [H|[H|[]]]; discriminate.
  - apply (proj2 (cors_guard_allow_list (rt := Samples.ascii_runtime)
                    Samples.unconfigured) eq_refl
             {| origin := Some (lit "https://c.example");
                target := TokenRoute |}).
Defined.

(** C7, as stated, fails on a request whose Origin header is present and
    empty: the allow-list has two entries, the empty string is none of
    them, and the guard lets the request through. *)
Lemma empty_origin_header_passes_the_guard :
  List.length (allowedOrigins Samples.env) = 2%nat
  /\ ~ In [] (allowedOrigins Samples.env)
  /\ cors_origin Samples.env (Some []) = inl tt
  /\ app (rt := Samples.ascii_runtime) Samples.env
         {| origin := Some []; target := TokenRoute |}
     = dispatch (rt := Samples.ascii_runtime) Samples.env TokenRoute.
Proof.
  repeat split.
  vm_compute. intros [H|[H|[]]]; discriminate.
Qed.

(** ** Parsing the allow-list *)

Lemma split_comma_nonempty (s : jsstring) : split_comma s <> [].
Proof.
  destruct s as [|c s]; simpl; [discriminate|].
  destruct (c =? 44); [discriminate|].
  destruct (split_comma s); discriminate.
Qed.

(** The pieces, put back together with commas, are the string. *)
Lemma split_comma_join (s : jsstring) : join [44] (split_comma s) = s.
Proof.
  induction s as [|c s IH]; [reflexivity|]. simpl split_comma.
  destruct (N.eqb_spec c 44) as [->|Hc].
  - pose proof (split_comma_nonempty s) as Hne.
    destruct (split_comma s) as [|p ps]; [congruence|].
    change (join [44] ([] :: p :: ps)) with ([44] ++ join [44] (p :: ps)).
    now rewrite IH.
  - pose proof (split_comma_nonempty s) as Hne.
    destruct (split_comma s) as [|p ps]; [congruence|].
    destruct ps as [|q ps]; simpl in *; now rewrite <- IH.
Qed.

Lemma split_comma_no_comma (s : jsstring) :
  Forall (fun piece => ~ In 44 piece) (split_comma s).
Proof.
  induction s as [|c s IH]; simpl.
  - constructor; [easy|constructor].
  - destruct (N.eqb_spec c 44) as [->|Hc].
    + constructor; [easy|exact IH].
    + destruct (split_comma s) as [|p ps].
      * constructor; [|constructor]. intros [H|[]]. congruence.
      * inversion IH as [|? ? Hp Hps]; subst. constructor; [|exact Hps].
        intros [H|H]; [congruence|contradiction].
Qed.

Lemma split_comma_blank (s : jsstring) :
  blank s -> Forall all_whitespace (split_comma s).
Proof.
  unfold blank, all_whitespace.
  induction 1 as [|c s Hc Hs IH]; simpl.
  - repeat constructor.
  - destruct (N.eqb_spec c 44) as [->|Hne].
    + constructor; [constructor|exact IH].
    + destruct Hc as [Hc|Hc]; [congruence|].
      destruct (split_comma s) as [|p ps].
      * repeat constructor. exact Hc.
      * inversion IH as [|? ? Hp Hps]; subst.
        constructor; [|exact Hps]. now constructor.
Qed.

Lemma trimStart_all_whitespace (s : jsstring) :
  all_whitespace s -> trimStart s = [].
Proof.
  induction 1 as [|c s Hc Hs IH]; simpl; [reflexivity|]. now rewrite Hc.
Qed.

Lemma trim_all_whitespace (s : jsstring) : all_whitespace s -> trim s = [].
Proof.
  intros H. unfold trim. now rewrite (trimStart_all_whitespace s H).
Qed.

(** [trimStart] removes a prefix of whitespace, and all of it. *)
Lemma trimStart_spec (s : jsstring) :
  exists pre,
    s = pre ++ trimStart s /\ all_whitespace pre
    /\ forall c rest, trimStart s = c :: rest -> is_whitespace c = false.
Proof.
  induction s as [|c s (pre & Heq & Hpre & Hhead)]; simpl.
  - exists []. repeat split; [constructor|discriminate].
  - destruct (is_whitespace c) eqn:Hc.
    + exists (c :: pre). repeat split.
      * simpl. now rewrite <- Heq.
      * now constructor.
      * exact Hhead.
    + exists []. repeat split; [constructor|].
      intros c' rest [= <- _]. exact Hc.
Qed.

(** [trimEnd] removes a suffix of whitespace, and all of it. *)
Lemma trimEnd_spec (s : jsstring) :
  exists post,
    s = trimEnd s ++ post /\ all_whitespace post
    /\ forall front c, trimEnd s = front ++ [c] -> is_whitespace c = false.
Proof.
  unfold trimEnd.
  destruct (trimStart_spec (rev s)) as (pre & Heq & Hpre & Hhead).
  exists (rev pre). repeat split.
  - rewrite <- rev_app_distr, <- Heq. now rewrite rev_involutive.
  - unfold all_whitespace in *. apply Forall_rev. exact Hpre.
  - intros front c E. apply (f_equal (@rev N)) in E.
    rewrite rev_involutive, rev_app_distr in E. simpl in E.
    eapply Hhead. exact E.
Qed.

Lemma trim_spec (s : jsstring) :
  exists pre post,
    s = pre ++ trim s ++ post
    /\ all_whitespace pre /\ all_whitespace post /\ trimmed (trim s).
Proof.
  unfold trim.
  destruct (trimStart_spec s) as (pre & Heq & Hpre & Hhead).
  destruct (trimEnd_spec (trimStart s)) as (post & Heq' & Hpost & Hlast).
  exists pre, post. repeat split; auto.
  - now rewrite <- Heq'.
  - intros c rest E. rewrite E in Heq'. simpl in Heq'.
    eapply Hhead. exact Heq'.
Qed.

(** C10.  The allow-list is read from the comma-separated setting as
    follows.  The setting is cut at its commas (the pieces hold no comma
    and, rejoined with commas, give the setting back); every entry of the
    allow-list is a piece with the whitespace around it removed, is not
    empty, and neither starts nor ends with whitespace; every piece that
    is not all whitespace contributes its trimmed form.  Hence a setting
    of commas and whitespace only gives the empty allow-list, under which
    the guard accepts every origin. *)
Theorem allowed_origins_parsing (env : process_env) :
  let setting := APS_ALLOWED_ORIGINS env in
  join [44] (split_comma setting) = setting
  /\ Forall (fun piece => ~ In 44 piece) (split_comma setting)
  /\ (forall entry,
        In entry (allowedOrigins env) ->
        entry <> [] /\ trimmed entry
        /\ exists piece pre post,
             In piece (split_comma setting)
             /\ piece = pre ++ entry ++ post
             /\ all_whitespace pre /\ all_whitespace post)
  /\ (forall piece,
        In piece (split_comma setting) -> trim piece <> [] ->
        In (trim piece) (allowedOrigins env))
  /\ (blank setting ->
      allowedOrigins env = []
      /\ forall origin, cors_origin env origin = inl tt).
Proof.
  intros setting. split; [apply split_comma_join|].
  split; [apply split_comma_no_comma|]. split; [|split].
  - intros entry Hin. unfold allowedOrigins in Hin.
    apply filter_In in Hin. destruct Hin as [Hin Htruthy].
    apply in_map_iff in Hin. destruct Hin as (piece & <- & Hpiece).
    destruct (trim_spec piece) as (pre & post & Heq & Hpre & Hpost & Htrim).
    split; [now apply truthy_nonempty|]. split; [exact Htrim|].
    exists piece, pre, post. auto.
  - intros piece Hin Hne. unfold allowedOrigins.
    apply filter_In. split; [|now apply truthy_nonempty].
    apply in_map. exact Hin.
  - intros Hblank.
    assert (E : allowedOrigins env = []).
    { unfold allowedOrigins. fold setting.
      pose proof (split_comma_blank setting Hblank) as Hpieces.
      induction Hpieces as [|p ps Hp Hps IH]; [reflexivity|].
      simpl. now rewrite (trim_all_whitespace p Hp). }
    split; [exact E|]. intros origin. now apply cors_origin_open.
Qed.

Lemma allowed_origins_parsing_witness :
  (lit "https://b.example" <> []
   /\ trimmed (lit "https://b.example")
   /\ exists piece pre post,
        In piece (split_comma (APS_ALLOWED_ORIGINS Samples.env))
        /\ piece = pre ++ lit "https://b.example" ++ post
        /\ all_whitespace pre /\ all_whitespace post)
  /\ In (trim (lit " https://b.example"))
        (allowedOrigins Samples.env)
  /\ allowedOrigins Samples.blank_origins = []
  /\ cors_origin Samples.blank_origins (Some (lit "https://c.example"))
     = inl tt.
Proof.
  pose proof (allowed_origins_parsing Samples.env) as (_ & _ & He & Hp & _).
  pose proof (allowed_origins_parsing Samples.blank_origins)
    as (_ & _ & _ & _ & Hb).
  split; [|split].
  - apply He. vm_compute. auto.
  - apply Hp; [vm_compute; auto|vm_compute; discriminate].
  - assert (Hblank : blank (APS_ALLOWED_ORIGINS Samples.blank_origins)).
    { unfold blank. vm_compute.
      repeat (constructor; [first [left; reflexivity|right; reflexivity]|]).
      constructor. }
    destruct (Hb Hblank) as [E Hopen]. split; [exact E|apply Hopen].
Defined.

(** ** Stored object names *)

Lemma uint_chars_digits (d : Decimal.uint) :
  Forall (fun c => is_digit c = true) (uint_chars d).
Proof. induction d; simpl; constructor; auto. Qed.

Lemma uint_chars_inj (d d' : Decimal.uint) :
  uint_chars d = uint_chars d' -> d = d'.
Proof.
  revert d'. induction d; destruct d'; simpl; intros E;
    try discriminate E; try reflexivity;
    injection E as E; f_equal; auto.
Qed.

Lemma Number_toString_digits (n : N) :
  Forall (fun c => is_digit c = true) (Number_toString n).
Proof. apply uint_chars_digits. Qed.

Lemma Number_toString_inj (n n' : N) :
  Number_toString n = Number_toString n' -> n = n'.
Proof.
  intros E. apply DecimalN.Unsigned.to_uint_inj. now apply uint_chars_inj.
Qed.

Lemma Number_toString_nonempty (n : N) : Number_toString n <> [].
Proof.
  unfold Number_toString. destruct n as [|p]; [discriminate|].
  pose proof (DecimalPos.Unsigned.to_uint_nonnil p) as Hp.
  change (N.to_uint (Npos p)) with (Pos.to_uint p).
  destruct (Pos.to_uint p); [congruence|discriminate..].
Qed.

Lemma replace_unsafe_safe (s : jsstring) :
  Forall (fun c => safe_char c = true) (replace_unsafe s).
Proof.
  induction s as [|c s IH]; simpl; constructor; auto.
  destruct (safe_char c) eqn:E; [exact E|reflexivity].
Qed.

Lemma replace_unsafe_length (s : jsstring) :
  List.length (replace_unsafe s) = List.length s.
Proof. apply length_map. Qed.

Lemma replace_unsafe_nth (s : jsstring) (i : nat) (c : N) :
  nth_error s i = Some c ->
  nth_error (replace_unsafe s) i = Some (if safe_char c then c else 95).
Proof.
  intros E. unfold replace_unsafe. now rewrite nth_error_map, E.
Qed.

Lemma digit_is_safe (c : N) : is_digit c = true -> safe_char c = true.
Proof. intros E. unfold safe_char. rewrite E. now rewrite !orb_true_r. Qed.

Lemma safe_is_unreserved (c : N) :
  safe_char c = true -> uri_unreserved c = true.
Proof.
  unfold safe_char, uri_unreserved, is_alnum. intros E.
  repeat (apply orb_true_iff in E; destruct E as [E|E]);
    rewrite E; rewrite ?orb_true_r; reflexivity.
Qed.

Lemma encodeURIComponent_unreserved (s : jsstring) :
  Forall (fun c => uri_unreserved c = true) s ->
  encodeURIComponent s = Some s.
Proof.
  induction 1 as [|c s Hc Hs IH]; simpl; [reflexivity|].
  now rewrite Hc, IH.
Qed.

Lemma objectName_safe (now : N) (name : jsstring) :
  Forall (fun c => safe_char c = true) (objectName now name).
Proof.
  unfold objectName. apply Forall_app. split.
  - eapply Forall_impl; [|apply Number_toString_digits].
    intros c. apply digit_is_safe.
  - apply Forall_app. split; [repeat constructor|apply replace_unsafe_safe].
Qed.

Lemma objectName_escaped (now : N) (name : jsstring) :
  encodeURIComponent (objectName now name) = Some (objectName now name).
Proof.
  apply encodeURIComponent_unreserved.
  eapply Forall_impl; [|apply objectName_safe].
  intros c. apply safe_is_unreserved.
Qed.

(** A run of digits followed by a dash is read in one way only. *)
Lemma digits_dash_unique (d d' t t' : jsstring) :
  Forall (fun c => is_digit c = true) d ->
  Forall (fun c => is_digit c = true) d' ->
  d ++ 45 :: t = d' ++ 45 :: t' -> d = d' /\ t = t'.
Proof.
  intros Hd. revert d'. induction Hd as [|c d Hc Hd IH]; intros d' Hd' E.
  - destruct Hd' as [|c' d' Hc' Hd']; simpl in E.
    + now injection E as ->.
    + injection E as <- _. discriminate Hc'.
  - destruct Hd' as [|c' d' Hc' Hd']; simpl in E.
    + injection E as -> _. discriminate Hc.
    + injection E as -> E. destruct (IH d' Hd' E) as [-> ->]. auto.
Qed.

Lemma objectName_pattern_iff (now : N) (name : jsstring) :
  stored_name_pattern (objectName now name) <-> name <> [].
Proof.
  unfold objectName. change (lit "-") with [45]. split.
  - intros (digits & tail & E & _ & Hdigits & Htail & _) ->.
    simpl in E.
    destruct (digits_dash_unique _ _ _ _
                (Number_toString_digits now) Hdigits E) as [_ <-].
    congruence.
  - intros Hname. exists (Number_toString now), (replace_unsafe name).
    repeat split.
    + apply Number_toString_nonempty.
    + apply Number_toString_digits.
    + destruct name; [congruence|discriminate].
    + apply replace_unsafe_safe.
Qed.

(** ** The steps of the chain, one by one *)

Lemma surfaces_failure_message (what : jsstring) (r : response) :
  surfaces r (what ++ Number_toString (res_status r) ++ lit " " ++ res_text r).
Proof.
  split.
  - apply occurs_in_app_l, occurs_in_app_r, occurs_in_refl.
  - apply occurs_in_app_l, occurs_in_app_l, occurs_in_app_l, occurs_in_refl.
Qed.

Lemma not_found_is_not_ok (r : response) : res_status r = 404 -> ok r = false.
Proof. intros E. unfold ok. now rewrite E. Qed.

(** Unfolds one layer of the monad and rewrites with the facts at hand. *)
Ltac run_step :=
  try unfold fetch, json_of, builtin;
  cbn [exec bind catch option_map negb fst snd N.eqb Pos.eqb Buffer_from];
  repeat match goal with
  | H : ok ?r = _ |- context [ok ?r] => rewrite H
  | H : res_json ?r = _ |- context [res_json ?r] => rewrite H
  | H : res_status ?r = 404 |- context [res_status ?r =? 404] => rewrite H
  | H : (res_status ?r =? 404) = _ |- context [res_status ?r =? 404] =>
      rewrite H
  | H : APS_BUCKET_KEY ?e = _ |- context [APS_BUCKET_KEY ?e] => rewrite H
  | H : member ?d ?k = _ |- context [member ?d ?k] => rewrite H
  | H : Buffer_from ?v = _ |- context [Buffer_from ?v] => rewrite H
  | H : encodeURIComponent ?s = _ |- context [encodeURIComponent ?s] =>
      rewrite H
  end.

Ltac run := repeat (progress run_step).

Section Steps.

Context {rt : Runtime}.
Variables (env : process_env) (now : N) (token : value).

Lemma getAccessToken_ok (r : response) (tokenData : json) rest :
  configured env -> ok r = true -> res_json r = Some tokenData ->
  exec (getAccessToken env) now (Reply r :: rest)
  = (Returned tokenData, [token_request env]).
Proof.
  intros Hcfg Hok Hjson. unfold getAccessToken.
  rewrite (requireEnv_configured env Hcfg). run. reflexivity.
Qed.

Lemma getAccessToken_fails (r : response) rest :
  configured env -> ok r = false ->
  exec (getAccessToken env) now (Reply r :: rest)
  = (Thrown {| message := lit "Token request failed: "
                          ++ Number_toString (res_status r)
                          ++ lit " " ++ res_text r;
               status := Some (res_status r) |},
     [token_request env]).
Proof.
  intros Hcfg Hok. unfold getAccessToken.
  rewrite (requireEnv_configured env Hcfg). run. reflexivity.
Qed.

Variable key : jsstring.
Hypothesis Hkey : APS_BUCKET_KEY env = Some key.

Lemma ensureBucket_exists (details : response) rest :
  ok details = true ->
  exec (ensureBucket env token) now (Reply details :: rest)
  = (Returned tt, [details_request (toLowerCase key) token]).
Proof.
  intros Hok. unfold ensureBucket, bucket_key. run. reflexivity.
Qed.

Lemma ensureBucket_creates (details created : response) rest :
  res_status details = 404 -> ok created = true ->
  exec (ensureBucket env token) now (Reply details :: Reply created :: rest)
  = (Returned tt,
     [details_request (toLowerCase key) token;
      create_request env (toLowerCase key) token]).
Proof.
  intros H404 Hok. pose proof (not_found_is_not_ok details H404) as Hno.
  unfold ensureBucket, bucket_key. run. reflexivity.
Qed.

Lemma ensureBucket_check_fails (details : response) rest :
  ok details = false -> res_status details <> 404 ->
  exec (ensureBucket env token) now (Reply details :: rest)
  = (Thrown {| message := lit "Bucket check failed: "
                          ++ Number_toString (res_status details)
                          ++ lit " " ++ res_text details;
               status := None |},
     [details_request (toLowerCase key) token]).
Proof.
  intros Hok Hstatus. apply N.eqb_neq in Hstatus.
  unfold ensureBucket, bucket_key. run. reflexivity.
Qed.

Lemma ensureBucket_create_fails (details created : response) rest :
  res_status details = 404 -> ok created = false ->
  exec (ensureBucket env token) now (Reply details :: Reply created :: rest)
  = (Thrown {| message := lit "Bucket create failed: "
                          ++ Number_toString (res_status created)
                          ++ lit " " ++ res_text created;
               status := None |},
     [details_request (toLowerCase key) token;
      create_request env (toLowerCase key) token]).
Proof.
  intros H404 Hok. pose proof (not_found_is_not_ok details H404) as Hno.
  unfold ensureBucket, bucket_key. run. reflexivity.
Qed.

Lemma uploadToBucket_ok (f : file) (r : response) (data : json)
  (objectId : value) rest :
  ok r = true -> res_json r = Some data ->
  member data (lit "objectId") = Some objectId ->
  exec (uploadToBucket env token f) now (Reply r :: rest)
  = (Returned objectId,
     [upload_request (toLowerCase key) (objectName now (originalname f))
                     token f]).
Proof.
  intros Hok Hjson Hid. unfold uploadToBucket, bucket_key.
  pose proof (objectName_escaped now (originalname f)) as Hesc.
  run. reflexivity.
Qed.

Lemma uploadToBucket_fails (f : file) (r : response) rest :
  ok r = false ->
  exec (uploadToBucket env token f) now (Reply r :: rest)
  = (Thrown {| message := lit "Upload failed: "
                          ++ Number_toString (res_status r)
                          ++ lit " " ++ res_text r;
               status := None |},
     [upload_request (toLowerCase key) (objectName now (originalname f))
                     token f]).
Proof.
  intros Hok. unfold uploadToBucket, bucket_key.
  pose proof (objectName_escaped now (originalname f)) as Hesc.
  run. reflexivity.
Qed.

Lemma startTranslation_ok (urn : jsstring) (r : response) rest :
  ok r = true ->
  exec (startTranslation token urn) now (Reply r :: rest)
  = (Returned tt, [job_request token urn]).
Proof. intros Hok. unfold startTranslation. run. reflexivity. Qed.

Lemma startTranslation_fails (urn : jsstring) (r : response) rest :
  ok r = false ->
  exec (startTranslation token urn) now (Reply r :: rest)
  = (Thrown {| message := lit "Translate failed: "
                          ++ Number_toString (res_status r)
                          ++ lit " " ++ res_text r;
               status := None |},
     [job_request token urn]).
Proof. intros Hok. unfold startTranslation. run. reflexivity. Qed.

End Steps.

(** ** Stored object names, as the handler receives them *)

Lemma upload_single_named (part : option file) (f : file) :
  upload_single part = Some f -> originalname f <> [].
Proof.
  unfold upload_single. destruct part as [g|]; [|discriminate].
  destruct (truthy (originalname g)) eqn:Hname; [|discriminate].
  intros [= <-]. now apply truthy_nonempty.
Qed.

(** A file part without a filename never reaches [uploadToBucket]: the
    handler sees no file and answers 400 without any upstream call. *)
Lemma unnamed_part_is_refused
  {rt : Runtime} (env : process_env) (now : N) (bytes : list N)
  (script : list reply) :
  exec (post_upload_translate env
          (upload_single (Some {| originalname := []; buffer := bytes |})))
       now script
  = (Returned {| code := 400;
                 content := error_body (lit "No file uploaded.") |}, []).
Proof. reflexivity. Qed.

(** Whatever the upstream replies, the only request [uploadToBucket]
    issues is the PUT for the object name built from the clock and the
    filename. *)
Lemma uploadToBucket_request
  {rt : Runtime} (env : process_env) (now : N) (token : value) (f : file)
  (script : list reply) (rq : request) :
  In rq (snd (exec (uploadToBucket env token f) now script)) ->
  exists key,
    APS_BUCKET_KEY env = Some key
    /\ rq = upload_request (toLowerCase key)
                           (objectName now (originalname f)) token f.
Proof.
  pose proof (objectName_escaped now (originalname f)) as Hesc.
  unfold uploadToBucket, bucket_key.
  destruct (APS_BUCKET_KEY env) as [key|]; [|intros []].
  run. intros Hin. exists key. split; [reflexivity|].
  destruct script as [|[r|] rest]; cbn [exec bind snd] in Hin.
  - now destruct Hin as [<-|[]].
  - destruct (ok r); cbn [negb bind exec snd] in Hin.
    + destruct (res_json r) as [data|]; cbn [bind exec snd] in Hin.
      * destruct (member data (lit "objectId"));
          cbn [bind exec snd] in Hin; now destruct Hin as [<-|[]].
      * now destruct Hin as [<-|[]].
    + now destruct Hin as [<-|[]].
  - now destruct Hin as [<-|[]].
Qed.

(** C4.  For every file the upload-translate handler receives (multer
    hands over no file without a filename) and every clock reading, the
    stored object name generated by [uploadToBucket] matches
    [^\d+-[A-Za-z0-9._-]+$]: it is the decimal clock reading, a dash, and
    the original filename in which every character outside
    [A-Za-z0-9._-] is replaced with an underscore and the others are
    kept; the same filename stored at two different clock readings gets
    two different names; and that name, which needs no escaping, is the
    one in the URL of the only request [uploadToBucket] issues. *)
Theorem stored_object_name
  {rt : Runtime} (env : process_env) (now : N) (token : value)
  (part : option file) (f : file) :
  upload_single part = Some f ->
  let name := originalname f in
  stored_name_pattern (objectName now name)
  /\ (objectName now name = Number_toString now ++ [45] ++ safeName name
      /\ List.length (safeName name) = List.length name
      /\ forall i c,
           nth_error name i = Some c ->
           nth_error (safeName name) i
           = Some (if safe_char c then c else 95))
  /\ (forall now', now' <> now -> objectName now' name <> objectName now name)
  /\ encodeURIComponent (objectName now name) = Some (objectName now name)
  /\ (forall script rq,
        In rq (snd (exec (uploadToBucket env token f) now script)) ->
        exists key,
          APS_BUCKET_KEY env = Some key
          /\ rq = upload_request (toLowerCase key) (objectName now name)
                                 token f).
Proof.
  intros Hpart name.
  pose proof (upload_single_named part f Hpart) as Hname. fold name in Hname.
  split; [now apply objectName_pattern_iff|]. split; [|split; [|split]].
  - split; [reflexivity|].
    split; [apply replace_unsafe_length|apply replace_unsafe_nth].
  - intros now' Hnow E. apply Hnow. unfold objectName in E.
    apply app_inv_tail in E. now apply Number_toString_inj.
  - apply objectName_escaped.
  - intros script rq. apply uploadToBucket_request.
Qed.

Lemma stored_object_name_witness :
  stored_name_pattern
    (objectName 1700000000000 (originalname Samples.drawing))
  /\ objectName 1700000000000 (originalname Samples.drawing)
     = lit "1700000000000-floor_plan__1_.dwg"
  /\ objectName 1700000000001 (originalname Samples.drawing)
     <> objectName 1700000000000 (originalname Samples.drawing)
  /\ snd (exec (uploadToBucket (rt := Samples.ascii_runtime) Samples.env
                  Samples.token Samples.drawing)
               1700000000000 [Reply Samples.uploaded])
     = [upload_request (lit "models")
                       (lit "1700000000000-floor_plan__1_.dwg")
                       Samples.token Samples.drawing].
Proof.
  destruct (stored_object_name (rt := Samples.ascii_runtime) Samples.env
              1700000000000 Samples.token (Some Samples.drawing)
              Samples.drawing eq_refl)
    as (Hpattern & _ & Hdistinct & _ & Hrequest).
  split; [exact Hpattern|]. split; [reflexivity|].
  split; [apply Hdistinct; discriminate|].
  destruct (Hrequest [Reply Samples.uploaded]
              (upload_request (lit "models")
                 (lit "1700000000000-floor_plan__1_.dwg")
                 Samples.token Samples.drawing)
              (or_introl eq_refl)) as (key & Hkey & _).
  reflexivity.
Defined.

(** ** Ensuring the bucket *)

(** C6, as the code has it.  With the bucket key configured, for every
    token: when the details lookup answers with any 2xx status
    [ensureBucket] returns after that one call; when it answers 404,
    [ensureBucket] issues the create call, whose JSON body names the bucket
    with the policy key "persistent" and whose headers carry the region
    under x-ads-region, and returns if that call answers 2xx; on any other
    status of the details lookup, and on any non-2xx status of the create
    call, it throws an error whose message holds the upstream status code
    and the upstream body text. *)
Theorem ensureBucket_policy
  {rt : Runtime} (env : process_env) (now : N) (token : value)
  (key : jsstring) :
  APS_BUCKET_KEY env = Some key ->
  let bucketKey := toLowerCase key in
  (forall details rest,
      ok details = true ->
      exec (ensureBucket env token) now (Reply details :: rest)
      = (Returned tt, [details_request bucketKey token]))
  /\ (forall details created rest,
        res_status details = 404 -> ok created = true ->
        exec (ensureBucket env token) now
             (Reply details :: Reply created :: rest)
        = (Returned tt,
           [details_request bucketKey token;
            create_request env bucketKey token]))
  /\ (body (create_request env bucketKey token)
      = Json (JObj [(lit "bucketKey", JStr bucketKey);
                    (lit "policyKey", JStr (lit "persistent"))])
      /\ In (lit "x-ads-region", APS_REGION env)
            (headers (create_request env bucketKey token)))
  /\ (forall details rest,
        ok details = false -> res_status details <> 404 ->
        exists msg,
          exec (ensureBucket env token) now (Reply details :: rest)
          = (Thrown {| message := msg; status := None |},
             [details_request bucketKey token])
          /\ surfaces details msg)
  /\ (forall details created rest,
        res_status details = 404 -> ok created = false ->
        exists msg,
          exec (ensureBucket env token) now
               (Reply details :: Reply created :: rest)
          = (Thrown {| message := msg; status := None |},
             [details_request bucketKey token;
              create_request env bucketKey token])
          /\ surfaces created msg).
Proof.
  intros Hkey bucketKey. repeat split.
  - intros. now apply ensureBucket_exists.
  - intros. now apply ensureBucket_creates.
  - simpl. auto.
  - intros details rest Hok Hstatus. eexists. split.
    + now apply ensureBucket_check_fails.
    + apply surfaces_failure_message.
  - intros details created rest H404 Hok. eexists. split.
    + now apply ensureBucket_create_fails.
    + apply surfaces_failure_message.
Qed.

Lemma ensureBucket_policy_witness :
  exec (ensureBucket (rt := Samples.ascii_runtime) Samples.env Samples.token)
       0 [Reply (Samples.plain 404 "missing"); Reply (Samples.plain 200 "")]
  = (Returned tt,
     [details_request (lit "models") Samples.token;
      create_request Samples.env (lit "models") Samples.token])
  /\ exists msg,
       exec (ensureBucket (rt := Samples.ascii_runtime) Samples.env
                          Samples.token)
            0 [Reply (Samples.plain 403 "denied")]
       = (Thrown {| message := msg; status := None |},
          [details_request (lit "models") Samples.token])
       /\ surfaces (Samples.plain 403 "denied") msg.
Proof.
  destruct (ensureBucket_policy (rt := Samples.ascii_runtime) Samples.env 0
              Samples.token (lit "Models") eq_refl)
    as (_ & Hcreate & _ & Hfail & _).
  split.
  - apply (Hcreate (Samples.plain 404 "missing") (Samples.plain 200 "") []);
      reflexivity.
  - apply (Hfail (Samples.plain 403 "denied") []);
      [reflexivity|discriminate].
Defined.

(** C6, as stated, fails on a details lookup answered 204: the status is
    neither 200 nor 404, yet [ensureBucket] returns without a create call
    and without an error. *)
Lemma ensureBucket_accepts_any_2xx :
  res_status (Samples.plain 204 "") <> 200
  /\ res_status (Samples.plain 204 "") <> 404
  /\ exec (ensureBucket (rt := Samples.ascii_runtime) Samples.env
                        Samples.token)
          0 [Reply (Samples.plain 204 "")]
     = (Returned tt, [details_request (lit "models") Samples.token]).
Proof. repeat split; discriminate. Qed.

(** ** The upload-translate chain *)

(** C1.  With the configuration in place, when the token request is
    answered 2xx with a bundle, the bucket details lookup 404, the bucket
    creation 2xx, the upload 2xx with a JSON body whose objectId is the
    string [id], and the job submission 2xx, the upload-translate endpoint
    answers 200 with the JSON object whose single member, urn, is the
    base64 encoding of (the UTF-8 bytes of) [id]; the five upstream calls
    are issued in that order. *)
Theorem upload_translate_success
  {rt : Runtime} (env : process_env) (now : N) (f : file)
  (key : jsstring) (token : value) (id : jsstring)
  (tok details created uploaded job : response) (rest : list reply) :
  configured env ->
  APS_BUCKET_KEY env = Some key ->
  grants tok token ->
  res_status details = 404 ->
  ok created = true ->
  ok uploaded = true ->
  (exists data,
      res_json uploaded = Some data
      /\ member data (lit "objectId") = Some (Val (JStr id))) ->
  ok job = true ->
  let urn := base64 (utf8_encode id) in
  exec (post_upload_translate env (Some f)) now
       (Reply tok :: Reply details :: Reply created :: Reply uploaded
        :: Reply job :: rest)
  = (Returned {| code := 200; content := JObj [(lit "urn", JStr urn)] |},
     [token_request env;
      details_request (toLowerCase key) token;
      create_request env (toLowerCase key) token;
      upload_request (toLowerCase key) (objectName now (originalname f))
                     token f;
      job_request token urn]).
Proof.
  intros Hcfg Hkey (Htok & tokenData & Hbundle & Htoken) H404 Hcreated
         Huploaded (data & Hdata & Hid) Hjob urn.
  pose proof (not_found_is_not_ok details H404) as Hno.
  pose proof (objectName_escaped now (originalname f)) as Hesc.
  unfold post_upload_translate, handler, getAccessToken, access_token,
    ensureBucket, uploadToBucket, startTranslation, bucket_key.
  rewrite (requireEnv_configured env Hcfg).
  run. reflexivity.
Qed.

Lemma upload_translate_success_witness :
  exec (post_upload_translate (rt := Samples.ascii_runtime) Samples.env
          (Some Samples.drawing))
       1700000000000
       [Reply Samples.token_ok; Reply (Samples.plain 404 "missing");
        Reply (Samples.plain 200 ""); Reply Samples.uploaded;
        Reply (Samples.plain 200 "")]
  = (Returned {| code := 200;
                 content := JObj [(lit "urn", JStr (lit "YWJj"))] |},
     [token_request Samples.env;
      details_request (lit "models") Samples.token;
      create_request Samples.env (lit "models") Samples.token;
      upload_request (lit "models")
                     (lit "1700000000000-floor_plan__1_.dwg")
                     Samples.token Samples.drawing;
      job_request Samples.token (lit "YWJj")]).
Proof.
  apply (upload_translate_success (rt := Samples.ascii_runtime) Samples.env
           1700000000000 Samples.drawing (lit "Models") Samples.token
           (lit "abc")).
  - repeat split.
  - reflexivity.
  - split; [reflexivity|]. exists Samples.bundle. split; reflexivity.
  - reflexivity.
  - reflexivity.
  - reflexivity.
  - exists (JObj [(lit "objectId", JStr (lit "abc"))]). split; reflexivity.
  - reflexivity.
Defined.

(** ** The manifest relay *)

Lemma unreserved_is_no_surrogate (c : N) :
  uri_unreserved c = true ->
  is_high_surrogate c = false /\ is_low_surrogate c = false.
Proof.
  intros H.
  assert (Hc : c <= 126).
  { unfold uri_unreserved, is_alnum, is_lower, is_upper, is_digit, between
      in H.
    repeat (apply orb_true_iff in H; destruct H as [H|H]);
      try (apply andb_true_iff in H; destruct H as [_ H];
           apply N.leb_le in H; lia);
      apply N.eqb_eq in H; lia. }
  unfold is_high_surrogate, is_low_surrogate, between.
  split; apply andb_false_iff; left; apply N.leb_gt; lia.
Qed.

Lemma option_map_defined {A B : Type} (g : A -> B) (o : option A) :
  (exists a, o = Some a) -> exists b, option_map g o = Some b.
Proof. intros [a ->]. now exists (g a). Qed.

(** [encodeURIComponent] does not throw on a well-formed string. *)
Lemma encodeURIComponent_well_formed (s : jsstring) :
  well_formed s = true -> exists escaped, encodeURIComponent s = Some escaped.
Proof.
  remember (List.length s) as n eqn:Hn.
  assert (Hle : (List.length s <= n)%nat) by lia. clear Hn.
  revert s Hle. induction n as [|n IH]; intros s Hle Hwf.
  - destruct s; [now exists []|simpl in Hle; lia].
  - destruct s as [|c rest]; [now exists []|]. simpl in Hle.
    cbn [encodeURIComponent well_formed] in *.
    destruct (uri_unreserved c) eqn:Hun.
    + destruct (unreserved_is_no_surrogate c Hun) as [Hhi Hlo].
      rewrite Hhi, Hlo in Hwf. apply option_map_defined, IH; [lia|exact Hwf].
    + destruct (is_high_surrogate c).
      * destruct rest as [|d rest']; [discriminate|].
        apply andb_true_iff in Hwf. destruct Hwf as [Hd Hwf]. rewrite Hd.
        apply option_map_defined, IH; [simpl in Hle; lia|exact Hwf].
      * apply andb_true_iff in Hwf. destruct Hwf as [Hlo Hwf].
        apply negb_true_iff in Hlo. rewrite Hlo.
        apply option_map_defined, IH; [lia|exact Hwf].
Qed.

(** C8.  With the configuration in place and a token obtained, for every
    resource locator (a well-formed string) and every upstream manifest
    response with a JSON body, the manifest endpoint sends a GET for
    /modelderivative/v2/designdata/<locator, URL-escaped>/manifest and
    answers with the upstream status code and the upstream JSON value,
    whatever they are. *)
Theorem manifest_is_relayed
  {rt : Runtime} (env : process_env) (now : N) (urn : jsstring)
  (token : value) (tok manifest : response) (data : json)
  (rest : list reply) :
  configured env ->
  grants tok token ->
  well_formed urn = true ->
  res_json manifest = Some data ->
  exists escaped,
    encodeURIComponent urn = Some escaped
    /\ exec (get_manifest env urn) now (Reply tok :: Reply manifest :: rest)
       = (Returned {| code := res_status manifest; content := data |},
          [token_request env; manifest_request escaped token])
    /\ method (manifest_request escaped token) = GET
    /\ url (manifest_request escaped token)
       = APS_BASE ++ lit "/modelderivative/v2/designdata/" ++ escaped
         ++ lit "/manifest".
Proof.
  intros Hcfg (Htok & tokenData & Hbundle & Htoken) Hwf Hdata.
  destruct (encodeURIComponent_well_formed urn Hwf) as [escaped Hesc].
  exists escaped. split; [exact Hesc|]. split; [|split; reflexivity].
  unfold get_manifest, handler, getAccessToken, access_token.
  rewrite (requireEnv_configured env Hcfg).
  run. reflexivity.
Qed.

Lemma manifest_is_relayed_witness :
  exists escaped,
    encodeURIComponent (lit "YWJj+/=") = Some escaped
    /\ exec (get_manifest (rt := Samples.ascii_runtime) Samples.env
               (lit "YWJj+/="))
            0 [Reply Samples.token_ok; Reply Samples.in_progress]
       = (Returned {| code := 202;
                      content := JObj [(lit "status",
                                        JStr (lit "inprogress"))] |},
          [token_request Samples.env;
           manifest_request escaped Samples.token])
    /\ escaped = lit "YWJj%2B%2F%3D".
Proof.
  assert (Hcfg : configured Samples.env) by (repeat split).
  assert (Hgrant : grants Samples.token_ok Samples.token).
  { split; [reflexivity|]. exists Samples.bundle. split; reflexivity. }
  destruct (manifest_is_relayed (rt := Samples.ascii_runtime) Samples.env 0
              (lit "YWJj+/=") Samples.token Samples.token_ok
              Samples.in_progress
              (JObj [(lit "status", JStr (lit "inprogress"))]) []
              Hcfg Hgrant eq_refl eq_refl)
    as (escaped & Hesc & Hrun & _).
  exists escaped. split; [exact Hesc|]. split; [exact Hrun|].
  vm_compute in Hesc. now injection Hesc as <-.
Defined.

(** ** Upstream failures along the chain *)

Lemma error_middleware_content (err : jserror) :
  truthy (message err) = true ->
  content (error_middleware err) = error_body (message err).
Proof.
  intros H. unfold error_middleware, error_body. cbn [content]. now rewrite H.
Qed.

Lemma error_middleware_code (err : jserror) (s : N) :
  status err = Some s -> s <> 0 -> code (error_middleware err) = s.
Proof.
  intros E Hs. unfold error_middleware. cbn [code]. rewrite E.
  apply N.eqb_neq in Hs. now rewrite Hs.
Qed.

(** C2, as the code has it.  With the configuration in place, let the
    upload-translate chain have reached one of its calls (token request,
    bucket details, bucket creation, upload, job submission) and let the
    upstream answer that call with a non-2xx status, other than 404 when
    the call is the details lookup (404 there starts the bucket creation).
    Then the chain stops at that call and the endpoint answers with the
    body [{ error: msg }] where [msg] holds the upstream status code and
    the upstream body text; when the failing call is the token request,
    the HTTP status of the answer is the upstream status. *)
Theorem upstream_failure_is_reported
  {rt : Runtime} (env : process_env) (now : N) (f : file) (token : value)
  (s : step) (replies : list response) (bad : response)
  (rest : list reply) :
  configured env ->
  leads_to token s replies ->
  ok bad = false ->
  (s = DetailsStep -> res_status bad <> 404) ->
  exists resp msg calls,
    exec (post_upload_translate env (Some f)) now
         (map Reply (replies ++ [bad]) ++ rest)
    = (Returned resp, calls)
    /\ List.length calls = S (List.length replies)
    /\ content resp = error_body msg
    /\ surfaces bad msg
    /\ (s = TokenStep -> res_status bad <> 0 -> code resp = res_status bad).
Proof.
  intros Hcfg Hlead Hbad H404.
  destruct (configured_bucket_key env Hcfg) as [key Hkey].
  inversion Hlead; subst; clear Hlead;
    repeat match goal with
           | H : leads_to _ _ _ |- _ => inversion H; subst; clear H
           end;
    repeat match goal with
           | H : grants _ _ |- _ =>
               destruct H as (? & ? & ? & ?)
           end;
    try match goal with
        | H : res_status ?r = 404 |- _ =>
            pose proof (not_found_is_not_ok r H)
        end;
    try (assert ((res_status bad =? 404) = false)
          by (apply N.eqb_neq; auto));
    pose proof (objectName_escaped now (originalname f));
    cbn [map Datatypes.app];
    unfold post_upload_translate, handler, getAccessToken, access_token,
      ensureBucket, uploadToBucket, startTranslation, bucket_key;
    rewrite (requireEnv_configured env Hcfg);
    run;
    (eexists _, _, _; split; [reflexivity|]; split; [reflexivity|];
     split; [apply error_middleware_content, truthy_lit_app|];
     split; [apply surfaces_failure_message|]);
    intros Hstep Hstatus; try discriminate Hstep.
  now apply error_middleware_code.
Qed.

Lemma upstream_failure_is_reported_witness :
  (exists resp msg calls,
      exec (post_upload_translate (rt := Samples.ascii_runtime) Samples.env
              (Some Samples.drawing))
           0 [Reply (Samples.plain 401 "bad credentials")]
      = (Returned resp, calls)
      /\ List.length calls = 1%nat
      /\ content resp = error_body msg
      /\ surfaces (Samples.plain 401 "bad credentials") msg
      /\ (TokenStep = TokenStep -> 401 <> 0 -> code resp = 401))
  /\ (exists resp msg calls,
        exec (post_upload_translate (rt := Samples.ascii_runtime)
                Samples.env (Some Samples.drawing))
             0 [Reply Samples.token_ok; Reply (Samples.plain 200 "");
                Reply (Samples.plain 507 "no space")]
        = (Returned resp, calls)
        /\ List.length calls = 3%nat
        /\ content resp = error_body msg
        /\ surfaces (Samples.plain 507 "no space") msg
        /\ (UploadStep = TokenStep -> 507 <> 0 -> code resp = 507)).
Proof.
  assert (Hcfg : configured Samples.env) by (repeat split).
  assert (Hgrant : grants Samples.token_ok Samples.token).
  { split; [reflexivity|]. exists Samples.bundle. split; reflexivity. }
  split.
  - apply (upstream_failure_is_reported (rt := Samples.ascii_runtime)
             Samples.env 0 Samples.drawing Samples.token TokenStep []
             (Samples.plain 401 "bad credentials") [] Hcfg).
    + constructor.
    + reflexivity.
    + discriminate.
  - apply (upstream_failure_is_reported (rt := Samples.ascii_runtime)
             Samples.env 0 Samples.drawing Samples.token UploadStep
             ([Samples.token_ok] ++ [Samples.plain 200 ""])
             (Samples.plain 507 "no space") [] Hcfg).
    + apply to_upload_existing; [now apply to_details|reflexivity].
    + reflexivity.
    + discriminate.
Defined.

(** C2, as stated, fails on a details lookup answered 404, which is no
    error at all (the chain goes on and the endpoint answers 200), and on
    a details lookup answered 403, which the endpoint reports with the
    HTTP status 500. *)
Lemma upstream_status_is_not_always_relayed :
  (ok (Samples.plain 404 "missing") = false
   /\ fst (exec (post_upload_translate (rt := Samples.ascii_runtime)
                   Samples.env (Some Samples.drawing))
                0 [Reply Samples.token_ok;
                   Reply (Samples.plain 404 "missing");
                   Reply (Samples.plain 200 ""); Reply Samples.uploaded;
                   Reply (Samples.plain 200 "")])
      = Returned {| code := 200;
                    content := JObj [(lit "urn", JStr (lit "YWJj"))] |})
  /\ (ok (Samples.plain 403 "denied") = false
      /\ fst (exec (post_upload_translate (rt := Samples.ascii_runtime)
                      Samples.env (Some Samples.drawing))
                   0 [Reply Samples.token_ok;
                      Reply (Samples.plain 403 "denied")])
         = Returned {| code := 500;
                       content := error_body
                                    (lit "Bucket check failed: 403 denied") |}
      /\ 500 <> res_status (Samples.plain 403 "denied")).
Proof. repeat split; discriminate. Qed.

(* ================================================================== *)
(** * Further properties of the endpoints                              *)
(* ================================================================== *)

Lemma error_middleware_raised {rt : Runtime} (f : builtin_failure) :
  error_middleware (raised f)
  = {| code := 500;
       content := error_body (rendered_message (engine_message f)) |}.
Proof. reflexivity. Qed.

Lemma missing_vars_nonempty (env : process_env) :
  falsy (APS_CLIENT_ID env) = true
  \/ falsy (APS_CLIENT_SECRET env) = true
  \/ falsy (APS_BUCKET_KEY env) = true ->
  missing_vars env <> [].
Proof.
  unfold missing_vars.
  intros [H|[H|H]]; rewrite H;
    destruct (falsy (APS_CLIENT_ID env)),
             (falsy (APS_CLIENT_SECRET env)),
             (falsy (APS_BUCKET_KEY env)); discriminate.
Qed.

(** X1.  With the configuration in place, when the token request is
    answered 2xx with a JSON body, the token endpoint answers 200 with that
    JSON value as it is (whatever it holds, [null] included), after exactly
    one upstream call: a POST to /authentication/v2/token whose form
    carries the configured client id and secret. *)
Theorem token_endpoint_relays_bundle
  {rt : Runtime} (env : process_env) (now : N) (r : response)
  (bundle : json) (id secret : jsstring) (rest : list reply) :
  configured env ->
  APS_CLIENT_ID env = Some id ->
  APS_CLIENT_SECRET env = Some secret ->
  ok r = true ->
  res_json r = Some bundle ->
  exec (get_token env) now (Reply r :: rest)
  = (Returned {| code := 200; content := bundle |}, [token_request env])
  /\ method (token_request env) = POST
  /\ url (token_request env) = APS_BASE ++ lit "/authentication/v2/token"
  /\ body (token_request env)
     = Form [(lit "client_id", id);
             (lit "client_secret", secret);
             (lit "grant_type", lit "client_credentials");
             (lit "scope",
              lit
                "data:read data:write data:create bucket:create bucket:read")].
Proof.
  intros Hcfg Hid Hsecret Hok Hjson. repeat split.
  - unfold get_token. rewrite exec_handler, exec_bind.
    rewrite (getAccessToken_ok env now r bundle rest Hcfg Hok Hjson).
    reflexivity.
  - unfold token_request. cbn [body]. now rewrite Hid, Hsecret.
Qed.

Lemma token_endpoint_relays_bundle_witness :
  exec (get_token (rt := Samples.ascii_runtime) Samples.env) 0
       [Reply Samples.token_ok]
  = (Returned {| code := 200; content := Samples.bundle |},
     [token_request Samples.env]).
Proof.
  apply (token_endpoint_relays_bundle (rt := Samples.ascii_runtime)
           Samples.env 0 Samples.token_ok Samples.bundle
           (lit "client") (lit "secret") []);
    try reflexivity.
  repeat split.
Defined.

(** X2.  With the configuration in place, when the token request is
    answered with a non-2xx status, the token endpoint and the manifest
    endpoint both answer with that status and the message
    "Token request failed: <status> <upstream body text>", and the token
    request is the only upstream call: the manifest is not asked for. *)
Theorem token_failure_is_relayed
  {rt : Runtime} (env : process_env) (now : N) (urn : jsstring)
  (r : response) (rest : list reply) :
  configured env ->
  ok r = false ->
  res_status r <> 0 ->
  let answer :=
    {| code := res_status r;
       content := error_body (lit "Token request failed: "
                              ++ Number_toString (res_status r)
                              ++ lit " " ++ res_text r) |} in
  exec (get_token env) now (Reply r :: rest)
  = (Returned answer, [token_request env])
  /\ exec (get_manifest env urn) now (Reply r :: rest)
     = (Returned answer, [token_request env]).
Proof.
  intros Hcfg Hok Hstatus answer.
  pose proof (getAccessToken_fails env now r rest Hcfg Hok) as Hfail.
  split.
  - unfold get_token. rewrite exec_handler, exec_bind, Hfail.
    rewrite error_middleware_with_status;
      [reflexivity|exact Hstatus|apply truthy_lit_app].
  - unfold get_manifest. rewrite exec_handler, exec_bind, Hfail.
    rewrite error_middleware_with_status;
      [reflexivity|exact Hstatus|apply truthy_lit_app].
Qed.

Lemma token_failure_is_relayed_witness :
  exec (get_manifest (rt := Samples.ascii_runtime) Samples.env
          (lit "YWJj")) 0
       [Reply (Samples.plain 401 "bad credentials");
        Reply Samples.in_progress]
  = (Returned {| code := 401;
                 content := error_body
                   (lit "Token request failed: 401 bad credentials") |},
     [token_request Samples.env]).
Proof.
  apply (token_failure_is_relayed (rt := Samples.ascii_runtime) Samples.env
           0 (lit "YWJj") (Samples.plain 401 "bad credentials")
           [Reply Samples.in_progress]).
  - repeat split.
  - reflexivity.
  - discriminate.
Defined.

(** X3.  Whenever one of the three required variables is unset or empty,
    the upload-translate endpoint (given a file) and the manifest endpoint
    answer 500 with the "Missing env vars: ..." message and issue no
    upstream call, exactly as the token endpoint does. *)
Theorem every_endpoint_requires_config
  {rt : Runtime} (env : process_env) (now : N) (f : file) (urn : jsstring)
  (script : list reply) :
  falsy (APS_CLIENT_ID env) = true
  \/ falsy (APS_CLIENT_SECRET env) = true
  \/ falsy (APS_BUCKET_KEY env) = true ->
  let answer :=
    {| code := 500;
       content := error_body (lit "Missing env vars: "
                              ++ join (lit ", ") (missing_vars env)) |} in
  exec (post_upload_translate env (Some f)) now script = (Returned answer, [])
  /\ exec (get_manifest env urn) now script = (Returned answer, []).
Proof.
  intros Hmissing answer.
  pose proof (requireEnv_missing env (missing_vars_nonempty env Hmissing))
    as Hthrow.
  split.
  - unfold post_upload_translate. rewrite exec_handler.
    unfold getAccessToken. rewrite Hthrow. cbn [bind exec].
    rewrite error_middleware_with_status;
      [reflexivity|discriminate|apply truthy_lit_app].
  - unfold get_manifest. rewrite exec_handler.
    unfold getAccessToken. rewrite Hthrow. cbn [bind exec].
    rewrite error_middleware_with_status;
      [reflexivity|discriminate|apply truthy_lit_app].
Qed.

Lemma every_endpoint_requires_config_witness :
  exec (post_upload_translate (rt := Samples.ascii_runtime)
          Samples.unconfigured (Some Samples.drawing))
       0 [Reply Samples.token_ok]
  = (Returned
       {| code := 500;
          content := error_body
            (lit "Missing env vars: APS_CLIENT_ID, APS_CLIENT_SECRET") |},
     []).
Proof.
  apply (every_endpoint_requires_config (rt := Samples.ascii_runtime)
           Samples.unconfigured 0 Samples.drawing [] [Reply Samples.token_ok]
           (or_introl eq_refl)).
Defined.

(** Opens the chain of the upload-translate endpoint for [run]. *)
Ltac open_chain env Hcfg :=
  unfold post_upload_translate, handler, getAccessToken, access_token,
    ensureBucket, uploadToBucket, startTranslation, bucket_key;
  rewrite (requireEnv_configured env Hcfg).

(** X4.  With the configuration in place, when a fetch of the
    upload-translate chain is rejected (the network call itself fails), at
    whichever of the five calls the chain has arrived, the chain stops at
    that call and the endpoint answers 500 with the engine's message for
    the rejection (or "Server error" if that message is empty). *)
Theorem rejected_fetch_is_reported
  {rt : Runtime} (env : process_env) (now : N) (f : file) (token : value)
  (s : step) (replies : list response) (rest : list reply) :
  configured env ->
  leads_to token s replies ->
  exists calls,
    exec (post_upload_translate env (Some f)) now
         (map Reply replies ++ Rejected :: rest)
    = (Returned {| code := 500;
                   content := error_body
                     (rendered_message (engine_message FetchRejected)) |},
       calls)
    /\ List.length calls = S (List.length replies).
Proof.
  intros Hcfg Hlead.
  destruct (configured_bucket_key env Hcfg) as [key Hkey].
  inversion Hlead; subst; clear Hlead;
    repeat match goal with
           | H : leads_to _ _ _ |- _ => inversion H; subst; clear H
           end;
    repeat match goal with
           | H : grants _ _ |- _ => destruct H as (? & ? & ? & ?)
           end;
    try match goal with
        | H : res_status ?r = 404 |- _ =>
            pose proof (not_found_is_not_ok r H)
        end;
    pose proof (objectName_escaped now (originalname f));
    cbn [map Datatypes.app];
    open_chain env Hcfg; run;
    rewrite error_middleware_raised;
    eexists; split; reflexivity.
Qed.

Lemma rejected_fetch_is_reported_witness :
  exists calls,
    exec (post_upload_translate (rt := Samples.ascii_runtime) Samples.env
            (Some Samples.drawing))
         0 [Reply Samples.token_ok; Reply (Samples.plain 200 ""); Rejected]
    = (Returned {| code := 500; content := error_body (lit "engine error") |},
       calls)
    /\ List.length calls = 3%nat.
Proof.
  assert (Hcfg : configured Samples.env) by (repeat split).
  assert (Hgrant : grants Samples.token_ok Samples.token).
  { split; [reflexivity|]. exists Samples.bundle. split; reflexivity. }
  apply (rejected_fetch_is_reported (rt := Samples.ascii_runtime)
           Samples.env 0 Samples.drawing Samples.token UploadStep
           ([Samples.token_ok] ++ [Samples.plain 200 ""]) [] Hcfg).
  apply to_upload_existing; [now apply to_details|reflexivity].
Defined.

(** X5.  With the configuration in place, when the bucket details lookup
    is answered 2xx the bucket is taken to exist: on success of the other
    calls the upload-translate endpoint answers 200 with the urn after
    four upstream calls (token, details, upload, job), and no create call
    is issued. *)
Theorem upload_translate_into_existing_bucket
  {rt : Runtime} (env : process_env) (now : N) (f : file)
  (key : jsstring) (token : value) (id : jsstring)
  (tok details uploaded job : response) (rest : list reply) :
  configured env ->
  APS_BUCKET_KEY env = Some key ->
  grants tok token ->
  ok details = true ->
  ok uploaded = true ->
  (exists data,
      res_json uploaded = Some data
      /\ member data (lit "objectId") = Some (Val (JStr id))) ->
  ok job = true ->
  let urn := base64 (utf8_encode id) in
  exec (post_upload_translate env (Some f)) now
       (Reply tok :: Reply details :: Reply uploaded :: Reply job :: rest)
  = (Returned {| code := 200; content := JObj [(lit "urn", JStr urn)] |},
     [token_request env;
      details_request (toLowerCase key) token;
      upload_request (toLowerCase key) (objectName now (originalname f))
                     token f;
      job_request token urn]).
Proof.
  intros Hcfg Hkey (Htok & tokenData & Hbundle & Htoken) Hdetails
         Huploaded (data & Hdata & Hid) Hjob urn.
  pose proof (objectName_escaped now (originalname f)) as Hesc.
  open_chain env Hcfg. run. reflexivity.
Qed.

Lemma upload_translate_into_existing_bucket_witness :
  exec (post_upload_translate (rt := Samples.ascii_runtime) Samples.env
          (Some Samples.drawing))
       1700000000000
       [Reply Samples.token_ok; Reply (Samples.plain 200 "");
        Reply Samples.uploaded; Reply (Samples.plain 202 "")]
  = (Returned {| code := 200;
                 content := JObj [(lit "urn", JStr (lit "YWJj"))] |},
     [token_request Samples.env;
      details_request (lit "models") Samples.token;
      upload_request (lit "models")
                     (lit "1700000000000-floor_plan__1_.dwg")
                     Samples.token Samples.drawing;
      job_request Samples.token (lit "YWJj")]).
Proof.
  apply (upload_translate_into_existing_bucket (rt := Samples.ascii_runtime)
           Samples.env 1700000000000 Samples.drawing (lit "Models")
           Samples.token (lit "abc")).
  - repeat split.
  - reflexivity.
  - split; [reflexivity|]. exists Samples.bundle. split; reflexivity.
  - reflexivity.
  - reflexivity.
  - exists (JObj [(lit "objectId", JStr (lit "abc"))]). split; reflexivity.
  - reflexivity.
Defined.



(** ** The manifest endpoint at its edges *)

Lemma option_map_undefined {A B : Type} (g : A -> B) (o : option A) :
  o = None -> option_map g o = None.
Proof. now intros ->. Qed.

Lemma encodeURIComponent_ill_formed (s : jsstring) :
  well_formed s = false -> encodeURIComponent s = None.
Proof.
  remember (List.length s) as n eqn:Hn.
  assert (Hle : (List.length s <= n)%nat) by lia. clear Hn.
  revert s Hle. induction n as [|n IH]; intros s Hle Hwf.
  - destruct s; [discriminate|simpl in Hle; lia].
  - destruct s as [|c rest]; [discriminate|]. simpl in Hle.
    cbn [encodeURIComponent well_formed] in *.
    destruct (uri_unreserved c) eqn:Hun.
    + destruct (unreserved_is_no_surrogate c Hun) as [Hhi Hlo].
      rewrite Hhi, Hlo in Hwf.
      apply option_map_undefined, IH; [lia|exact Hwf].
    + destruct (is_high_surrogate c).
      * destruct rest as [|d rest']; [reflexivity|].
        destruct (is_low_surrogate d); [|reflexivity].
        apply option_map_undefined, IH; [simpl in Hle; lia|exact Hwf].
      * destruct (is_low_surrogate c); [reflexivity|].
        apply option_map_undefined, IH; [lia|exact Hwf].
Qed.

(** X7.  [encodeURIComponent] throws exactly on the strings that hold a
    surrogate without its partner; a locator of that kind makes the
    manifest endpoint answer 500 with the engine's URIError message once
    the token has been obtained: the token request is made, the manifest
    request is not. *)
Theorem manifest_rejects_lone_surrogates
  {rt : Runtime} (env : process_env) (now : N) (urn : jsstring)
  (token : value) (tok : response) (rest : list reply) :
  (encodeURIComponent urn = None <-> well_formed urn = false)
  /\ (configured env -> grants tok token -> well_formed urn = false ->
      exec (get_manifest env urn) now (Reply tok :: rest)
      = (Returned {| code := 500;
                     content := error_body
                       (rendered_message (engine_message MalformedURI)) |},
         [token_request env])).
Proof.
  split.
  - split; [|apply encodeURIComponent_ill_formed].
    intros Hnone. destruct (well_formed urn) eqn:Hwf; [|reflexivity].
    destruct (encodeURIComponent_well_formed urn Hwf) as [e He]. congruence.
  - intros Hcfg (Htok & tokenData & Hbundle & Htoken) Hwf.
    pose proof (encodeURIComponent_ill_formed urn Hwf) as Hesc.
    unfold get_manifest, handler, getAccessToken, access_token.
    rewrite (requireEnv_configured env Hcfg). run.
    rewrite error_middleware_raised. reflexivity.
Qed.

Lemma manifest_rejects_lone_surrogates_witness :
  exec (get_manifest (rt := Samples.ascii_runtime) Samples.env
          [89; 55357; 87]) 0
       [Reply Samples.token_ok; Reply Samples.in_progress]
  = (Returned {| code := 500; content := error_body (lit "engine error") |},
     [token_request Samples.env]).
Proof.
  assert (Hcfg : configured Samples.env) by (repeat split).
  assert (Hgrant : grants Samples.token_ok Samples.token).
  { split; [reflexivity|]. exists Samples.bundle. split; reflexivity. }
  apply (proj2 (manifest_rejects_lone_surrogates
                  (rt := Samples.ascii_runtime) Samples.env 0
                  [89; 55357; 87] Samples.token Samples.token_ok
                  [Reply Samples.in_progress]) Hcfg Hgrant eq_refl).
Defined.

(** X8.  With the configuration in place and a token obtained, when the
    manifest request is answered with a body that is not JSON, whatever the
    status, the manifest endpoint answers 500 with the engine's message for
    the parse failure: the upstream status is not relayed then. *)
Theorem manifest_needs_a_json_body
  {rt : Runtime} (env : process_env) (now : N) (urn : jsstring)
  (token : value) (tok manifest : response) (rest : list reply) :
  configured env ->
  grants tok token ->
  well_formed urn = true ->
  res_json manifest = None ->
  exists escaped,
    encodeURIComponent urn = Some escaped
    /\ exec (get_manifest env urn) now (Reply tok :: Reply manifest :: rest)
       = (Returned {| code := 500;
                      content := error_body
                        (rendered_message (engine_message BodyNotJson)) |},
          [token_request env; manifest_request escaped token]).
Proof.
  intros Hcfg (Htok & tokenData & Hbundle & Htoken) Hwf Hbody.
  destruct (encodeURIComponent_well_formed urn Hwf) as [escaped Hesc].
  exists escaped. split; [exact Hesc|].
  unfold get_manifest, handler, getAccessToken, access_token.
  rewrite (requireEnv_configured env Hcfg). run.
  rewrite error_middleware_raised. reflexivity.
Qed.

Lemma manifest_needs_a_json_body_witness :
  exists escaped,
    encodeURIComponent (lit "YWJj") = Some escaped
    /\ exec (get_manifest (rt := Samples.ascii_runtime) Samples.env
               (lit "YWJj")) 0
            [Reply Samples.token_ok; Reply (Samples.plain 404 "<html>")]
       = (Returned {| code := 500;
                      content := error_body (lit "engine error") |},
          [token_request Samples.env;
           manifest_request escaped Samples.token]).
Proof.
  assert (Hcfg : configured Samples.env) by (repeat split).
  assert (Hgrant : grants Samples.token_ok Samples.token).
  { split; [reflexivity|]. exists Samples.bundle. split; reflexivity. }
  apply (manifest_needs_a_json_body (rt := Samples.ascii_runtime)
           Samples.env 0 (lit "YWJj") Samples.token Samples.token_ok
           (Samples.plain 404 "<html>") [] Hcfg Hgrant eq_refl eq_refl).
Defined.

(** ** How many upstream calls, and which one first *)

Lemma at_most_le {A : Type} (n m : nat) (p : prog A) :
  at_most n p -> (n <= m)%nat -> at_most m p.
Proof.
  intros H. revert m. induction H as [n a|n e|n rq k Hk IH|n k Hk IH];
    intros m Hle; try constructor; auto.
  destruct m as [|m]; [lia|]. constructor. intros rp. apply IH. lia.
Qed.

Lemma at_most_bind {A B : Type} (n m total : nat) (p : prog A)
  (f : A -> prog B) :
  at_most n p -> (forall a, at_most m (f a)) -> (n + m <= total)%nat ->
  at_most total (bind p f).
Proof.
  intros H Hf. revert total.
  induction H as [n a|n e|n rq k Hk IH|n k Hk IH]; intros total Hle; simpl.
  - apply at_most_le with m; [apply Hf|lia].
  - constructor.
  - destruct total as [|total]; [lia|]. constructor. intros rp.
    apply IH. lia.
  - constructor. intros t. now apply IH.
Qed.

Lemma at_most_handler (n : nat) (body : prog client_response) :
  at_most n body -> at_most n (handler body).
Proof.
  unfold handler. induction 1; simpl; constructor; auto.
Qed.

Lemma at_most_exec {A : Type} (n : nat) (p : prog A) (now : N) :
  at_most n p ->
  forall script, (List.length (snd (exec p now script)) <= n)%nat.
Proof.
  induction 1 as [n a|n e|n rq k Hk IH|n k Hk IH]; intros script; simpl;
    try lia; auto.
  destruct script as [|rp rest]; simpl; [lia|].
  specialize (IH rp rest). destruct (exec (k rp) now rest) as [o calls].
  simpl in *. lia.
Qed.

(** Settles [at_most] on a program without [bind]. *)
Ltac at_most_leaf :=
  unfold fetch, json_of, builtin;
  repeat first
    [ constructor
    | intro
    | match goal with
      | |- at_most _ (match ?x with _ => _ end) => destruct x
      end ].

Section Bounds.

Context {rt : Runtime}.
Variable env : process_env.

Lemma requireEnv_at_most : at_most 0 (requireEnv env).
Proof. unfold requireEnv. at_most_leaf. Qed.

Lemma getAccessToken_at_most : at_most 1 (getAccessToken env).
Proof.
  unfold getAccessToken.
  apply at_most_bind with 0%nat 1%nat; [apply requireEnv_at_most| |lia].
  intros _. apply at_most_bind with 1%nat 0%nat; [| |lia]; at_most_leaf.
Qed.

Lemma access_token_at_most (tokenData : json) :
  at_most 0 (access_token tokenData).
Proof. unfold access_token. at_most_leaf. Qed.

Lemma ensureBucket_at_most (token : value) :
  at_most 2 (ensureBucket env token).
Proof.
  unfold ensureBucket, bucket_key.
  apply at_most_bind with 0%nat 2%nat; [at_most_leaf| |lia].
  intros bucketKey.
  apply at_most_bind with 1%nat 1%nat; [at_most_leaf| |lia].
  intros details. destruct (ok details); [constructor|].
  destruct (negb (res_status details =? 404)); [constructor|].
  apply at_most_bind with 1%nat 0%nat; [| |lia]; at_most_leaf.
Qed.

Lemma uploadToBucket_at_most (token : value) (f : file) :
  at_most 1 (uploadToBucket env token f).
Proof.
  unfold uploadToBucket, bucket_key. constructor. intros now.
  apply at_most_bind with 0%nat 1%nat; [at_most_leaf| |lia].
  intros bucketKey.
  apply at_most_bind with 0%nat 1%nat; [at_most_leaf| |lia].
  intros escaped.
  apply at_most_bind with 1%nat 0%nat; [at_most_leaf| |lia].
  intros res. destruct (negb (ok res)); [constructor|].
  apply at_most_bind with 0%nat 0%nat; [| |lia]; at_most_leaf.
Qed.

Lemma startTranslation_at_most (token : value) (urn : jsstring) :
  at_most 1 (startTranslation token urn).
Proof.
  unfold startTranslation.
  apply at_most_bind with 1%nat 0%nat; [| |lia]; at_most_leaf.
Qed.

Lemma get_token_at_most : at_most 1 (get_token env).
Proof.
  unfold get_token. apply at_most_handler.
  apply at_most_bind with 1%nat 0%nat;
    [apply getAccessToken_at_most|constructor|lia].
Qed.

Lemma post_upload_translate_at_most (req_file : option file) :
  at_most 5 (post_upload_translate env req_file).
Proof.
  unfold post_upload_translate. apply at_most_handler.
  destruct req_file as [f|]; [|constructor].
  apply at_most_bind with 1%nat 4%nat;
    [apply getAccessToken_at_most| |lia].
  intros tokenData.
  apply at_most_bind with 0%nat 4%nat;
    [apply access_token_at_most| |lia].
  intros token.
  apply at_most_bind with 2%nat 2%nat;
    [apply ensureBucket_at_most| |lia].
  intros _.
  apply at_most_bind with 0%nat 2%nat;
    [apply access_token_at_most| |lia].
  intros token'.
  apply at_most_bind with 1%nat 1%nat;
    [apply uploadToBucket_at_most| |lia].
  intros objectId.
  apply at_most_bind with 0%nat 1%nat; [at_most_leaf| |lia].
  intros bytes.
  apply at_most_bind with 0%nat 1%nat;
    [apply access_token_at_most| |lia].
  intros token''.
  apply at_most_bind with 1%nat 0%nat;
    [apply startTranslation_at_most|constructor|lia].
Qed.

Lemma get_manifest_at_most (urn : jsstring) : at_most 2 (get_manifest env urn).
Proof.
  unfold get_manifest. apply at_most_handler.
  apply at_most_bind with 1%nat 1%nat;
    [apply getAccessToken_at_most| |lia].
  intros tokenData.
  apply at_most_bind with 0%nat 1%nat; [at_most_leaf| |lia].
  intros escaped.
  apply at_most_bind with 0%nat 1%nat;
    [apply access_token_at_most| |lia].
  intros token.
  apply at_most_bind with 1%nat 0%nat; [at_most_leaf| |lia].
  intros result.
  apply at_most_bind with 0%nat 0%nat; [| |lia]; at_most_leaf.
Qed.

(** A handler that starts with [getAccessToken] makes no call at all or
    makes the token request first. *)
Lemma token_request_comes_first (f : json -> prog client_response)
  (now : N) (script : list reply) :
  let calls := snd (exec (handler (bind (getAccessToken env) f)) now script) in
  calls = [] \/ exists more, calls = token_request env :: more.
Proof.
  unfold handler, getAccessToken, requireEnv.
  destruct (0 <? N.of_nat (List.length (missing_vars env))).
  - left. reflexivity.
  - right. unfold fetch. cbn [bind catch exec].
    destruct script as [|rp rest]; [now exists []|].
    match goal with
    | |- context [exec ?p now rest] => destruct (exec p now rest) as [o calls]
    end.
    now exists calls.
Qed.

End Bounds.

(** X9.  Whatever the request, the configuration and the behaviour of the
    upstream, one request to the application causes at most one upstream
    call on the token route, at most five on the upload-translate route
    and at most two on the manifest route: there is no retry and no
    loop. *)
Theorem upstream_calls_are_bounded
  {rt : Runtime} (env : process_env) (req : client_request) (now : N)
  (script : list reply) :
  (List.length (snd (exec (app env req) now script))
   <= match target req with
      | TokenRoute => 1
      | UploadTranslateRoute _ => 5
      | ManifestRoute _ => 2
      end)%nat.
Proof.
  unfold app. destruct (cors_origin env (origin req)); [|simpl; lia].
  destruct (target req) as [|req_file|urn]; cbn [dispatch];
    apply at_most_exec.
  - apply get_token_at_most.
  - apply post_upload_translate_at_most.
  - apply get_manifest_at_most.
Qed.

(** X10.  Whatever the request, the configuration and the behaviour of
    the upstream, the application either makes no upstream call or makes
    the token request first: no bucket, upload, job or manifest call is
    ever issued before a token was asked for. *)
Theorem token_is_requested_first
  {rt : Runtime} (env : process_env) (req : client_request) (now : N)
  (script : list reply) :
  let calls := snd (exec (app env req) now script) in
  calls = [] \/ exists more, calls = token_request env :: more.
Proof.
  unfold app. destruct (cors_origin env (origin req)); [|now left].
  destruct (target req) as [|[f|]|urn]; cbn [dispatch].
  - apply token_request_comes_first.
  - apply token_request_comes_first.
  - now left.
  - apply token_request_comes_first.
Qed.

Lemma serve_always_ends {state A : Type}
  (answer : state -> request -> reply * state) (p : prog A) (now : N) :
  forall st, fst (serve state answer p now st) <> Starved.
Proof.
  induction p as [a|e|rq k IH|k IH]; intros st; simpl; try discriminate; auto.
  destruct (answer st rq) as [rp st']. specialize (IH rp st').
  now destruct (serve state answer (k rp) now st') as [o calls].
Qed.

(** X11.  No error escapes the application: whatever the request, the
    configuration and the behaviour of the upstream, a run never ends with
    an exception; against an upstream that answers every call (with a
    response or a rejection) it ends with a response to the client. *)
Theorem application_always_answers
  {rt : Runtime} (env : process_env) (req : client_request) (now : N) :
  (forall script e, fst (exec (app env req) now script) <> Thrown e)
  /\ (forall (state : Type) (answer : state -> request -> reply * state)
             (st : state),
        exists resp,
          fst (serve state answer (app env req) now st) = Returned resp).
Proof.
  assert (Hexec : forall script e,
             fst (exec (app env req) now script) <> Thrown e).
  { intros script e. unfold app.
    destruct (cors_origin env (origin req)); [|discriminate].
    destruct (target req) as [|req_file|urn]; cbn [dispatch];
      apply handler_never_throws. }
  split; [exact Hexec|]. intros state answer st.
  pose proof (serve_always_ends answer (app env req) now st) as Hends.
  pose proof (Hexec (replies_of state answer (app env req) now st)) as Hno.
  rewrite <- serve_is_exec in Hno.
  destruct (fst (serve state answer (app env req) now st)) as [resp|e|].
  - now exists resp.
  - now destruct (Hno e).
  - now destruct Hends.
Qed.

(** ** Stored names, once more *)

(** X12.  Two uploads get the same stored name exactly when they happen at
    the same clock reading and their filenames are the same after
    sanitising: different clock readings never collide, whatever the
    filenames, and at one clock reading two different filenames collide
    when they differ only in characters that are replaced. *)
Theorem stored_names_collide_iff (now now' : N) (name name' : jsstring) :
  objectName now name = objectName now' name'
  <-> now = now' /\ safeName name = safeName name'.
Proof.
  unfold objectName. change (lit "-") with [45]. split.
  - intros E.
    destruct (digits_dash_unique _ _ _ _ (Number_toString_digits now)
                (Number_toString_digits now') E) as [Hnow Hname].
    split; [now apply Number_toString_inj|exact Hname].
  - now intros [-> ->].
Qed.

Lemma safeName_fixes_safe (s : jsstring) :
  Forall (fun c => safe_char c = true) s -> safeName s = s.
Proof.
  unfold safeName, replace_unsafe.
  induction 1 as [|c s Hc Hs IH]; simpl; [reflexivity|]. now rewrite Hc, IH.
Qed.

(** X13.  Sanitising keeps a filename as it is exactly when the filename
    holds only characters of [A-Za-z0-9._-], and sanitising twice is the
    same as sanitising once. *)
Theorem safeName_idempotent (s : jsstring) :
  (safeName s = s <-> Forall (fun c => safe_char c = true) s)
  /\ safeName (safeName s) = safeName s.
Proof.
  split; [split|].
  - intros E. rewrite <- E. apply replace_unsafe_safe.
  - apply safeName_fixes_safe.
  - apply safeName_fixes_safe, replace_unsafe_safe.
Qed.

(** ** The CORS guard and the allow-list, once more *)

(** X14.  The CORS guard accepts a request exactly when the request has no
    Origin header or an empty one, or the allow-list is empty, or the
    origin is, code unit for code unit, an entry of the allow-list; every
    other request gets the error "CORS not allowed". *)
Theorem cors_guard_decision (env : process_env) (origin : option jsstring) :
  (cors_origin env origin = inl tt
   <-> falsy origin = true
       \/ allowedOrigins env = []
       \/ exists o, origin = Some o /\ In o (allowedOrigins env))
  /\ (cors_origin env origin = inl tt
      \/ cors_origin env origin
         = inr {| message := lit "CORS not allowed"; status := None |}).
Proof.
  unfold cors_origin.
  destruct (falsy origin) eqn:Hfalsy; cbn [orb].
  { split; [split; auto|auto]. }
  destruct (allowedOrigins env) as [|a l] eqn:Hlist.
  { split; [split; auto|auto]. }
  replace (N.of_nat (List.length (a :: l)) =? 0) with false
    by (symmetry; apply N.eqb_neq; simpl; lia).
  destruct origin as [o|]; [|discriminate].
  destruct (includes (a :: l) o) eqn:Hinc.
  - split; [split; auto|auto]. intros _. right. right. exists o.
    split; [reflexivity|]. now apply includes_In.
  - split; [split; [discriminate|]|auto].
    intros [H|[H|(o' & [= <-] & Hin)]]; try discriminate.
    apply includes_In in Hin. congruence.
Qed.

Lemma split_comma_piece (p s : jsstring) :
  ~ In 44 p -> split_comma (p ++ 44 :: s) = p :: split_comma s.
Proof.
  induction p as [|c p IH]; intros Hp; simpl.
  - reflexivity.
  - destruct (N.eqb_spec c 44) as [->|Hc]; [destruct Hp; now left|].
    rewrite IH; [reflexivity|]. intros Hin. apply Hp. now right.
Qed.

Lemma split_comma_single (p : jsstring) : ~ In 44 p -> split_comma p = [p].
Proof.
  induction p as [|c p IH]; intros Hp; simpl; [reflexivity|].
  destruct (N.eqb_spec c 44) as [->|Hc]; [destruct Hp; now left|].
  rewrite IH; [reflexivity|]. intros Hin. apply Hp. now right.
Qed.

Lemma split_comma_of_join (pieces : list jsstring) :
  pieces <> [] -> Forall (fun p => ~ In 44 p) pieces ->
  split_comma (join [44] pieces) = pieces.
Proof.
  intros Hne H. revert Hne.
  induction H as [|p rest Hp Hrest IH]; intros Hne; [now destruct Hne|].
  destruct rest as [|q rest'].
  - now apply split_comma_single.
  - change (join [44] (p :: q :: rest'))
      with (p ++ 44 :: join [44] (q :: rest')).
    rewrite split_comma_piece by exact Hp. f_equal. apply IH. discriminate.
Qed.

Lemma trim_trimmed (s : jsstring) : trimmed s -> trim s = s.
Proof.
  intros [Hhead Hlast]. unfold trim.
  assert (Hstart : trimStart s = s).
  { destruct s as [|c rest]; [reflexivity|]. simpl.
    now rewrite (Hhead c rest eq_refl). }
  rewrite Hstart. unfold trimEnd.
  destruct (rev s) as [|c front] eqn:Hrev.
  - apply (f_equal (@rev N)) in Hrev. rewrite rev_involutive in Hrev.
    now rewrite Hrev.
  - assert (Hs : s = rev front ++ [c]).
    { apply (f_equal (@rev N)) in Hrev. now rewrite rev_involutive in Hrev. }
    simpl. rewrite (Hlast (rev front) c Hs). now rewrite Hs.
Qed.

Lemma trimmed_by_ends (s : jsstring) :
  match s with c :: _ => is_whitespace c | [] => false end = false ->
  match rev s with c :: _ => is_whitespace c | [] => false end = false ->
  trimmed s.
Proof.
  intros Hhead Hlast. split.
  - intros c rest ->. exact Hhead.
  - intros front c ->. rewrite rev_app_distr in Hlast. exact Hlast.
Qed.

Lemma trimmed_pieces_are_kept (pieces : list jsstring) :
  Forall (fun p => p <> [] /\ trimmed p) pieces ->
  filter truthy (map trim pieces) = pieces.
Proof.
  induction 1 as [|p ps [Hne Htrim] Hps IH]; [reflexivity|].
  simpl. rewrite (trim_trimmed p Htrim).
  destruct p; [congruence|]. simpl. now rewrite IH.
Qed.

(** X15.  Writing origins into the setting and reading them back: when the
    setting is a list of origins joined by commas, each origin non-empty,
    without a comma and without whitespace at its ends, the allow-list is
    that list of origins, in the same order. *)
Theorem allowed_origins_of_joined
  (env : process_env) (origins : list jsstring) :
  env_APS_ALLOWED_ORIGINS env = Some (join [44] origins) ->
  Forall (fun o => o <> [] /\ ~ In 44 o /\ trimmed o) origins ->
  allowedOrigins env = origins.
Proof.
  intros Hsetting Horigins.
  unfold allowedOrigins, APS_ALLOWED_ORIGINS. rewrite Hsetting.
  cbn [default].
  destruct origins as [|o rest]; [reflexivity|].
  rewrite split_comma_of_join; [|discriminate|].
  - apply trimmed_pieces_are_kept.
    eapply Forall_impl; [|exact Horigins]. now intros ? (? & _ & ?).
  - eapply Forall_impl; [|exact Horigins]. now intros ? (_ & ? & _).
Qed.

Lemma allowed_origins_of_joined_witness :
  allowedOrigins
    {| APS_CLIENT_ID := None; APS_CLIENT_SECRET := None;
       APS_BUCKET_KEY := None; env_APS_REGION := None;
       env_APS_ALLOWED_ORIGINS :=
         Some (lit "https://a.example,http://localhost:5173") |}
  = [lit "https://a.example"; lit "http://localhost:5173"].
Proof.
  apply (allowed_origins_of_joined _
           [lit "https://a.example"; lit "http://localhost:5173"]).
  - reflexivity.
  - repeat constructor; try discriminate;
      try (apply trimmed_by_ends; reflexivity);
      vm_compute; intuition discriminate.
Defined.

(** ** Required variables, exactly *)

(** X16.  [requireEnv] passes exactly when the three required variables
    are set and not empty (an empty value counts as missing); otherwise
    the names it reports are those of the unset or empty variables and no
    other. *)
Theorem requireEnv_reports_exactly_the_missing (env : process_env) :
  (requireEnv env = Ret tt <-> configured env)
  /\ (In (lit "APS_CLIENT_ID") (missing_vars env)
      <-> falsy (APS_CLIENT_ID env) = true)
  /\ (In (lit "APS_CLIENT_SECRET") (missing_vars env)
      <-> falsy (APS_CLIENT_SECRET env) = true)
  /\ (In (lit "APS_BUCKET_KEY") (missing_vars env)
      <-> falsy (APS_BUCKET_KEY env) = true)
  /\ (forall name,
        In name (missing_vars env) ->
        name = lit "APS_CLIENT_ID" \/ name = lit "APS_CLIENT_SECRET"
        \/ name = lit "APS_BUCKET_KEY").
Proof.
  unfold requireEnv, configured, missing_vars.
  destruct (falsy (APS_CLIENT_ID env)), (falsy (APS_CLIENT_SECRET env)),
    (falsy (APS_BUCKET_KEY env));
    cbn [Datatypes.app List.length N.of_nat N.ltb N.compare In
         Pos.of_succ_nat Pos.succ];
    repeat split; intros; try reflexivity; try discriminate;
      try tauto;
      repeat match goal with
             | H : _ /\ _ |- _ => destruct H
             | H : _ \/ _ |- _ => destruct H
             | H : false = true |- _ => discriminate H
             | H : true = false |- _ => discriminate H
             | H : True |- _ => clear H
             | H : False |- _ => destruct H
             | H : lit _ = lit _ |- _ => vm_compute in H; discriminate H
             | H : lit _ = ?name |- _ => subst name
             end;
      auto.
Qed.

(** ** From the upload-translate endpoint to the manifest endpoint *)

Lemma base64_digit_in_alphabet (i : N) : base64_char (base64_digit i) = true.
Proof.
  unfold base64_digit, base64_char, is_upper, is_lower, is_digit, between.
  destruct (N.ltb_spec i 26) as [H26|H26].
  { replace (65 <=? 65 + i) with true by (symmetry; apply N.leb_le; lia).
    replace (65 + i <=? 90) with true by (symmetry; apply N.leb_le; lia).
    reflexivity. }
  destruct (N.ltb_spec i 52) as [H52|H52].
  { replace (97 <=? 97 + (i - 26)) with true
      by (symmetry; apply N.leb_le; lia).
    replace (97 + (i - 26) <=? 122) with true
      by (symmetry; apply N.leb_le; lia).
    cbn [andb]. now rewrite orb_true_r. }
  destruct (N.ltb_spec i 62) as [H62|H62].
  { replace (48 <=? 48 + (i - 52)) with true
      by (symmetry; apply N.leb_le; lia).
    replace (48 + (i - 52) <=? 57) with true
      by (symmetry; apply N.leb_le; lia).
    cbn [andb]. now rewrite !orb_true_r. }
  destruct (i =? 62); reflexivity.
Qed.

(** Induction on a list, three elements at a time. *)
Lemma list_ind3 {A : Type} (P : list A -> Prop) :
  P [] -> (forall a, P [a]) -> (forall a b, P [a; b]) ->
  (forall a b c rest, P rest -> P (a :: b :: c :: rest)) ->
  forall l, P l.
Proof.
  intros H0 H1 H2 H3.
  fix IH 1. intros [|a [|b [|c rest]]];
    [exact H0|apply H1|apply H2|apply H3, IH].
Qed.

Lemma base64_in_alphabet (bytes : list N) :
  Forall (fun c => base64_char c = true) (base64 bytes).
Proof.
  induction bytes as [|a|a b|a b c rest IH] using list_ind3;
    cbn [base64]; repeat constructor;
    try apply base64_digit_in_alphabet; exact IH.
Qed.

Lemma base64_char_is_no_surrogate (c : N) :
  base64_char c = true ->
  is_high_surrogate c = false /\ is_low_surrogate c = false.
Proof.
  intros H.
  assert (Hc : c <= 122).
  { unfold base64_char, is_lower, is_upper, is_digit, between in H.
    repeat (apply orb_true_iff in H; destruct H as [H|H]);
      try (apply andb_true_iff in H; destruct H as [_ H];
           apply N.leb_le in H; lia);
      apply N.eqb_eq in H; lia. }
  unfold is_high_surrogate, is_low_surrogate, between.
  split; apply andb_false_iff; left; apply N.leb_gt; lia.
Qed.

Lemma base64_alphabet_well_formed (s : jsstring) :
  Forall (fun c => base64_char c = true) s -> well_formed s = true.
Proof.
  induction 1 as [|c s Hc Hs IH]; [reflexivity|]. cbn [well_formed].
  destruct (base64_char_is_no_surrogate c Hc) as [-> ->]. exact IH.
Qed.

(** Escaping a string over the base64 alphabet leaves letters and digits
    and writes [+], [/] and [=] as [%2B], [%2F] and [%3D]. *)
Lemma base64_alphabet_escaped (s : jsstring) :
  Forall (fun c => base64_char c = true) s ->
  exists escaped,
    encodeURIComponent s = Some escaped
    /\ Forall (fun c => is_alnum c = true \/ c = 37) escaped.
Proof.
  induction 1 as [|c s Hc Hs (escaped & Hesc & Hchars)].
  - exists []. split; [reflexivity|constructor].
  - cbn [encodeURIComponent]. rewrite Hesc.
    unfold base64_char in Hc.
    repeat (apply orb_true_iff in Hc; destruct Hc as [Hc|Hc]).
    + exists (c :: escaped). unfold uri_unreserved, is_alnum.
      rewrite Hc, !orb_true_r. split; [reflexivity|].
      constructor; [|exact Hchars]. left. unfold is_alnum.
      now rewrite Hc, !orb_true_r.
    + exists (c :: escaped). unfold uri_unreserved, is_alnum.
      rewrite Hc. split; [reflexivity|].
      constructor; [|exact Hchars]. left. unfold is_alnum. now rewrite Hc.
    + exists (c :: escaped). unfold uri_unreserved, is_alnum.
      rewrite Hc, !orb_true_r. split; [reflexivity|].
      constructor; [|exact Hchars]. left. unfold is_alnum.
      now rewrite Hc, !orb_true_r.
    + apply N.eqb_eq in Hc. subst c. eexists. split; [reflexivity|].
      repeat (constructor; [first [right; reflexivity|left; reflexivity]|]).
      exact Hchars.
    + apply N.eqb_eq in Hc. subst c. eexists. split; [reflexivity|].
      repeat (constructor; [first [right; reflexivity|left; reflexivity]|]).
      exact Hchars.
    + apply N.eqb_eq in Hc. subst c. eexists. split; [reflexivity|].
      repeat (constructor; [first [right; reflexivity|left; reflexivity]|]).
      exact Hchars.
Qed.

(** X17.  Every urn the upload-translate endpoint computes, from whatever
    the upstream returned as object id, is a string over [A-Za-z0-9+/=];
    given to the manifest endpoint it is always escaped without error,
    into letters, digits and [%] only (so it stays one path segment), and
    with the configuration in place, a token obtained and a JSON manifest
    body, the manifest endpoint relays the upstream answer for it. *)
Theorem urn_is_accepted_by_manifest
  {rt : Runtime} (env : process_env) (now : N) (bytes : list N)
  (token : value) (tok manifest : response) (data : json)
  (rest : list reply) :
  let urn := base64 bytes in
  Forall (fun c => base64_char c = true) urn
  /\ exists escaped,
       encodeURIComponent urn = Some escaped
       /\ Forall (fun c => is_alnum c = true \/ c = 37) escaped
       /\ (configured env -> grants tok token ->
           res_json manifest = Some data ->
           exec (get_manifest env urn) now
                (Reply tok :: Reply manifest :: rest)
           = (Returned {| code := res_status manifest; content := data |},
              [token_request env; manifest_request escaped token])).
Proof.
  intros urn. pose proof (base64_in_alphabet bytes) as Halphabet.
  split; [exact Halphabet|].
  destruct (base64_alphabet_escaped urn Halphabet)
    as (escaped & Hesc & Hchars).
  exists escaped. split; [exact Hesc|]. split; [exact Hchars|].
  intros Hcfg (Htok & tokenData & Hbundle & Htoken) Hdata.
  unfold get_manifest, handler, getAccessToken, access_token.
  rewrite (requireEnv_configured env Hcfg). run. reflexivity.
Qed.

Lemma urn_is_accepted_by_manifest_witness :
  exists escaped,
    encodeURIComponent (base64 [251; 255; 254]) = Some escaped
    /\ escaped = lit "%2B%2F%2F%2B"
    /\ exec (get_manifest (rt := Samples.ascii_runtime) Samples.env
               (base64 [251; 255; 254])) 0
            [Reply Samples.token_ok; Reply Samples.in_progress]
       = (Returned {| code := 202;
                      content := JObj [(lit "status",
                                        JStr (lit "inprogress"))] |},
          [token_request Samples.env;
           manifest_request escaped Samples.token]).
Proof.
  assert (Hcfg : configured Samples.env) by (repeat split).
  assert (Hgrant : grants Samples.token_ok Samples.token).
  { split; [reflexivity|]. exists Samples.bundle. split; reflexivity. }
  destruct (urn_is_accepted_by_manifest (rt := Samples.ascii_runtime)
              Samples.env 0 [251; 255; 254] Samples.token Samples.token_ok
              Samples.in_progress
              (JObj [(lit "status", JStr (lit "inprogress"))]) [])
    as (_ & escaped & Hesc & _ & Hrun).
  exists escaped. split; [exact Hesc|]. split.
  - vm_compute in Hesc. now injection Hesc as <-.
  - exact (Hrun Hcfg Hgrant eq_refl).
Defined.

(** ** Bytes and escapes *)

Lemma lor_disjoint (a x n : N) :
  x < 2 ^ n -> N.lor (a * 2 ^ n) x = a * 2 ^ n + x.
Proof.
  intros Hx.
  assert (Hland : N.land (a * 2 ^ n) x = 0).
  { apply N.bits_inj_0. intros i. rewrite N.land_spec.
    destruct (N.lt_ge_cases i n) as [Hi|Hi].
    - now rewrite N.mul_pow2_bits_low.
    - replace (N.testbit x i) with false; [apply andb_false_r|].
      symmetry. apply N.testbit_false. rewrite N.div_small; [reflexivity|].
      apply N.lt_le_trans with (2 ^ n); [exact Hx|].
      apply N.pow_le_mono_r; [discriminate|exact Hi]. }
  rewrite <- N.lxor_lor by exact Hland.
  symmetry. now apply N.add_nocarry_lxor.
Qed.

Lemma shiftr_div (x n : N) : N.shiftr x n = x / 2 ^ n.
Proof. apply N.shiftr_div_pow2. Qed.

Lemma shiftl_mul (x n : N) : N.shiftl x n = x * 2 ^ n.
Proof. apply N.shiftl_mul_pow2. Qed.

Lemma land_mod (x n : N) : N.land x (N.ones n) = x mod 2 ^ n.
Proof. apply N.land_ones. Qed.

Lemma div_lt_pow2 (x n m : N) : x < 2 ^ (n + m) -> x / 2 ^ n < 2 ^ m.
Proof.
  intros H. apply N.Div0.div_lt_upper_bound.
  now rewrite <- N.pow_add_r.
Qed.

Lemma mod_lt_pow2 (x n : N) : x mod 2 ^ n < 2 ^ n.
Proof. apply N.mod_lt, N.pow_nonzero. discriminate. Qed.

(** The continuation byte [0x80 | (x & 0x3F)]. *)
Lemma continuation_byte (x : N) :
  N.lor 128 (N.land x 63) = 128 + x mod 64 /\ N.lor 128 (N.land x 63) < 192.
Proof.
  change 63 with (N.ones 6). rewrite land_mod.
  pose proof (mod_lt_pow2 x 6) as Hlt.
  pose proof (lor_disjoint 2 (x mod 2 ^ 6) 6 Hlt) as E.
  change (2 * 2 ^ 6) with 128 in E. change (2 ^ 6) with 64 in *.
  rewrite E. lia.
Qed.

(** The lead byte [marker | (cp >> shift)] of a sequence. *)
Lemma lead_byte (marker shift bits cp : N) :
  cp < 2 ^ (shift + bits) ->
  N.lor (marker * 2 ^ bits) (N.shiftr cp shift)
  = marker * 2 ^ bits + cp / 2 ^ shift
  /\ N.lor (marker * 2 ^ bits) (N.shiftr cp shift) < (marker + 1) * 2 ^ bits.
Proof.
  intros Hcp. rewrite shiftr_div.
  pose proof (div_lt_pow2 cp shift bits Hcp) as Hlt.
  rewrite (lor_disjoint marker _ bits Hlt). split; [reflexivity|]. nia.
Qed.

Lemma utf8_code_point_octets (cp : N) :
  cp < 2097152 -> octets (utf8_code_point cp).
Proof.
  intros Hcp. unfold utf8_code_point, octets.
  destruct (N.ltb_spec cp 128) as [H1|H1]; [repeat constructor; lia|].
  destruct (N.ltb_spec cp 2048) as [H2|H2].
  { destruct (lead_byte 6 6 5 cp H2) as [_ Hlead].
    destruct (continuation_byte cp) as [_ Hc0].
    change (6 * 2 ^ 5) with 192 in Hlead.
    change ((6 + 1) * 2 ^ 5) with 224 in Hlead.
    repeat constructor; lia. }
  destruct (N.ltb_spec cp 65536) as [H3|H3].
  { destruct (lead_byte 14 12 4 cp H3) as [_ Hlead].
    destruct (continuation_byte cp) as [_ Hc0].
    destruct (continuation_byte (N.shiftr cp 6)) as [_ Hc1].
    change (14 * 2 ^ 4) with 224 in Hlead.
    change ((14 + 1) * 2 ^ 4) with 240 in Hlead.
    repeat constructor; lia. }
  destruct (lead_byte 30 18 3 cp Hcp) as [_ Hlead].
  destruct (continuation_byte cp) as [_ Hc0].
  destruct (continuation_byte (N.shiftr cp 6)) as [_ Hc1].
  destruct (continuation_byte (N.shiftr cp 12)) as [_ Hc2].
  change (30 * 2 ^ 3) with 240 in Hlead.
  change ((30 + 1) * 2 ^ 3) with 248 in Hlead.
  repeat constructor; lia.
Qed.

Lemma surrogate_pair_range (hi lo : N) :
  is_high_surrogate hi = true -> is_low_surrogate lo = true ->
  65536 <= surrogate_pair hi lo < 1114112.
Proof.
  unfold is_high_surrogate, is_low_surrogate, between, surrogate_pair.
  intros Hhi Hlo.
  apply andb_true_iff in Hhi. destruct Hhi as [Hhi1 Hhi2].
  apply andb_true_iff in Hlo. destruct Hlo as [Hlo1 Hlo2].
  apply N.leb_le in Hhi1, Hhi2, Hlo1, Hlo2.
  rewrite shiftl_mul. change (2 ^ 10) with 1024. lia.
Qed.

Lemma hex_digit_alnum (i : N) : i < 16 -> is_alnum (hex_digit i) = true.
Proof.
  intros Hi. unfold hex_digit, is_alnum, is_lower, is_upper, is_digit, between.
  destruct (N.ltb_spec i 10) as [H|H].
  - replace (48 <=? 48 + i) with true by (symmetry; apply N.leb_le; lia).
    replace (48 + i <=? 57) with true by (symmetry; apply N.leb_le; lia).
    now rewrite !orb_true_r.
  - replace (65 <=? 65 + (i - 10)) with true
      by (symmetry; apply N.leb_le; lia).
    replace (65 + (i - 10) <=? 90) with true
      by (symmetry; apply N.leb_le; lia).
    cbn [andb]. now rewrite orb_true_r.
Qed.

Lemma alnum_is_escaped_char (c : N) :
  is_alnum c = true -> escaped_char c = true.
Proof.
  intros H. unfold escaped_char, uri_unreserved. now rewrite H.
Qed.

Lemma percent_bytes_escaped (bytes : list N) :
  octets bytes ->
  Forall (fun c => escaped_char c = true) (percent_bytes bytes).
Proof.
  unfold percent_bytes.
  induction 1 as [|b bytes Hb Hbytes IH];
    cbn [flat_map]; unfold percent_byte; cbn [Datatypes.app].
  - constructor.
  - constructor; [reflexivity|].
    constructor.
    { apply alnum_is_escaped_char, hex_digit_alnum.
      rewrite shiftr_div. apply (div_lt_pow2 b 4 4). exact Hb. }
    constructor; [|exact IH].
    apply alnum_is_escaped_char, hex_digit_alnum.
    change 15 with (N.ones 4). rewrite land_mod. apply mod_lt_pow2.
Qed.

Lemma Forall_option_map_cons (P : N -> Prop) (c : N) (o : option jsstring)
  (e : jsstring) :
  P c -> (forall e', o = Some e' -> Forall P e') ->
  option_map (cons c) o = Some e -> Forall P e.
Proof.
  intros Hc Ho E. destruct o as [e'|]; [|discriminate].
  injection E as <-. constructor; auto.
Qed.

Lemma Forall_option_map_app (P : N -> Prop) (pre : jsstring)
  (o : option jsstring) (e : jsstring) :
  Forall P pre -> (forall e', o = Some e' -> Forall P e') ->
  option_map (Datatypes.app pre) o = Some e -> Forall P e.
Proof.
  intros Hpre Ho E. destruct o as [e'|]; [|discriminate].
  injection E as <-. apply Forall_app. auto.
Qed.

(** What [encodeURIComponent] returns holds unreserved characters and
    the three characters of each escape only. *)
Lemma encodeURIComponent_escaped_chars (s : jsstring) :
  code_units s ->
  forall escaped,
    encodeURIComponent s = Some escaped ->
    Forall (fun c => escaped_char c = true) escaped.
Proof.
  remember (List.length s) as n eqn:Hn.
  assert (Hle : (List.length s <= n)%nat) by lia. clear Hn.
  revert s Hle. induction n as [|n IH]; intros s Hle Hunits e Hesc.
  - destruct s; [|simpl in Hle; lia]. injection Hesc as <-. constructor.
  - destruct s as [|c rest]; [injection Hesc as <-; constructor|].
    simpl in Hle. inversion Hunits as [|? ? Hc Hrest]; subst.
    cbn [encodeURIComponent] in Hesc.
    destruct (uri_unreserved c) eqn:Hun.
    + eapply Forall_option_map_cons; [| |exact Hesc].
      * unfold escaped_char. now rewrite Hun.
      * intros e'. apply IH; [lia|exact Hrest].
    + destruct (is_high_surrogate c) eqn:Hhi.
      * destruct rest as [|d rest']; [discriminate|].
        destruct (is_low_surrogate d) eqn:Hlo; [|discriminate].
        inversion Hrest as [|? ? Hd Hrest']; subst.
        eapply Forall_option_map_app; [| |exact Hesc].
        -- apply percent_bytes_escaped, utf8_code_point_octets.
           pose proof (surrogate_pair_range c d Hhi Hlo). lia.
        -- intros e'. apply IH; [simpl in Hle; lia|exact Hrest'].
      * destruct (is_low_surrogate c); [discriminate|].
        eapply Forall_option_map_app; [| |exact Hesc].
        -- apply percent_bytes_escaped, utf8_code_point_octets. lia.
        -- intros e'. apply IH; [lia|exact Hrest].
Qed.

(** X18.  With the configuration in place and a token obtained, for every
    locator that is a well-formed string of 16-bit code units, the
    manifest endpoint issues, after the token request, one GET whose URL
    is the base, "/modelderivative/v2/designdata/", the escaped locator
    and "/manifest", whatever the upstream goes on to reply; the escaped
    locator holds only unreserved characters ([A-Za-z0-9-_.!~*'()]) and
    [%], so it brings no [/], [?], [#] or [&] into that URL.  Dots are
    unreserved: the locators "." and ".." are put into the URL as they
    are. *)
Theorem manifest_url_takes_no_delimiter_from_locator
  {rt : Runtime} (env : process_env) (now : N) (urn : jsstring)
  (token : value) (tok : response) (rest : list reply) :
  configured env ->
  grants tok token ->
  code_units urn ->
  well_formed urn = true ->
  (exists escaped,
      encodeURIComponent urn = Some escaped
      /\ snd (exec (get_manifest env urn) now (Reply tok :: rest))
         = [token_request env; manifest_request escaped token]
      /\ method (manifest_request escaped token) = GET
      /\ url (manifest_request escaped token)
         = APS_BASE ++ lit "/modelderivative/v2/designdata/" ++ escaped
           ++ lit "/manifest"
      /\ Forall (fun c => escaped_char c = true) escaped
      /\ ~ In 47 escaped /\ ~ In 63 escaped /\ ~ In 35 escaped
      /\ ~ In 38 escaped)
  /\ encodeURIComponent (lit ".") = Some (lit ".")
  /\ encodeURIComponent (lit "..") = Some (lit "..").
Proof.
  intros Hcfg (Htok & tokenData & Hbundle & Htoken) Hunits Hwf.
  split; [|split; reflexivity].
  destruct (encodeURIComponent_well_formed urn Hwf) as [escaped Hesc].
  pose proof (encodeURIComponent_escaped_chars urn Hunits escaped Hesc)
    as Hchars.
  exists escaped. split; [exact Hesc|]. split.
  - unfold get_manifest, handler, getAccessToken, access_token.
    rewrite (requireEnv_configured env Hcfg). run.
    destruct rest as [|[r|] rest']; cbn [exec bind catch snd];
      [reflexivity| |reflexivity].
    destruct (res_json r); reflexivity.
  - split; [reflexivity|]. split; [reflexivity|]. split; [exact Hchars|].
    rewrite Forall_forall in Hchars.
    repeat split; intros Hin; apply Hchars in Hin; discriminate Hin.
Qed.

Lemma manifest_url_takes_no_delimiter_from_locator_witness :
  exists escaped,
    encodeURIComponent [97; 47; 98; 63; 99; 32; 55357; 56832] = Some escaped
    /\ escaped = lit "a%2Fb%3Fc%20%F0%9F%98%80"
    /\ snd (exec (get_manifest (rt := Samples.ascii_runtime) Samples.env
                    [97; 47; 98; 63; 99; 32; 55357; 56832])
                 0 [Reply Samples.token_ok; Reply Samples.in_progress])
       = [token_request Samples.env;
          manifest_request escaped Samples.token]
    /\ ~ In 47 escaped.
Proof.
  assert (Hcfg : configured Samples.env) by (repeat split).
  assert (Hgrant : grants Samples.token_ok Samples.token).
  { split; [reflexivity|]. exists Samples.bundle. split; reflexivity. }
  assert (Hunits : code_units [97; 47; 98; 63; 99; 32; 55357; 56832])
    by (unfold code_units; repeat constructor).
  destruct (manifest_url_takes_no_delimiter_from_locator
              (rt := Samples.ascii_runtime) Samples.env 0
              [97; 47; 98; 63; 99; 32; 55357; 56832] Samples.token
              Samples.token_ok [Reply Samples.in_progress]
              Hcfg Hgrant Hunits eq_refl)
    as ((escaped & Hesc & Hcalls & _ & _ & _ & Hslash & _) & _).
  exists escaped. split; [exact Hesc|]. split.
  - vm_compute in Hesc. now injection Hesc as <-.
  - split; [exact Hcalls|exact Hslash].
Defined.

(** ** The urn determines the object id *)

Lemma base64_digit_inj (i j : N) :
  i < 64 -> j < 64 -> base64_digit i = base64_digit j -> i = j.
Proof.
  unfold base64_digit. intros Hi Hj.
  destruct (N.ltb_spec i 26), (N.ltb_spec j 26),
    (N.ltb_spec i 52), (N.ltb_spec j 52),
    (N.ltb_spec i 62), (N.ltb_spec j 62),
    (N.eqb_spec i 62), (N.eqb_spec j 62); lia.
Qed.

Lemma base64_digit_no_padding (i : N) : base64_digit i <> 61.
Proof.
  unfold base64_digit.
  destruct (N.ltb_spec i 26), (N.ltb_spec i 52), (N.ltb_spec i 62),
    (N.eqb_spec i 62); lia.
Qed.

(** The four 6-bit numbers cut from three bytes, in arithmetic. *)
Lemma sextet_1 (a : N) :
  a < 256 -> N.shiftr a 2 = a / 4 /\ a / 4 < 64.
Proof.
  intros Ha. rewrite shiftr_div. change (2 ^ 2) with 4.
  split; [reflexivity|]. apply (div_lt_pow2 a 2 6). exact Ha.
Qed.

Lemma sextet_high (a bits : N) :
  N.shiftl (N.land a (N.ones bits)) (6 - bits)
  = (a mod 2 ^ bits) * 2 ^ (6 - bits).
Proof. now rewrite land_mod, shiftl_mul. Qed.

Lemma sextet_mixed (a b bits : N) :
  bits <= 6 -> b < 256 ->
  N.lor (N.shiftl (N.land a (N.ones bits)) (6 - bits))
        (N.shiftr b (8 - (6 - bits)))
  = (a mod 2 ^ bits) * 2 ^ (6 - bits) + b / 2 ^ (8 - (6 - bits)).
Proof.
  intros Hbits Hb. rewrite sextet_high, shiftr_div.
  apply lor_disjoint. apply div_lt_pow2.
  replace (8 - (6 - bits) + (6 - bits)) with 8 by lia. exact Hb.
Qed.

Lemma sextet_2 (a b : N) :
  b < 256 ->
  N.lor (N.shiftl (N.land a 3) 4) (N.shiftr b 4) = (a mod 4) * 16 + b / 16.
Proof. intros Hb. apply (sextet_mixed a b 2); [lia|exact Hb]. Qed.

Lemma sextet_3 (b c : N) :
  c < 256 ->
  N.lor (N.shiftl (N.land b 15) 2) (N.shiftr c 6) = (b mod 16) * 4 + c / 64.
Proof. intros Hc. apply (sextet_mixed b c 4); [lia|exact Hc]. Qed.

Lemma sextet_4 (c : N) : N.land c 63 = c mod 64 /\ c mod 64 < 64.
Proof.
  change 63 with (N.ones 6). rewrite land_mod. change (2 ^ 6) with 64.
  split; [reflexivity|]. now apply N.mod_lt.
Qed.

(** Names the quotient and the remainder of [x] by [d]. *)
Ltac euclid x d :=
  let Hd := fresh "Hdiv" in
  let Hm := fresh "Hmod" in
  assert (Hd : x = d * (x / d) + x mod d) by (apply N.div_mod; discriminate);
  assert (Hm : x mod d < d) by (apply N.mod_lt; discriminate);
  generalize dependent (x / d); generalize dependent (x mod d); intros.

Lemma first_byte_inj (a a' : N) :
  a / 4 = a' / 4 -> (a mod 4) * 16 = (a' mod 4) * 16 -> a = a'.
Proof. euclid a 4. euclid a' 4. lia. Qed.

Lemma second_byte_inj (a b a' b' : N) :
  b < 256 -> b' < 256 -> a mod 4 = a' mod 4 ->
  (a mod 4) * 16 + b / 16 = (a' mod 4) * 16 + b' / 16 ->
  (b mod 16) * 4 = (b' mod 16) * 4 -> b = b'.
Proof. euclid b 16. euclid b' 16. lia. Qed.

Lemma third_byte_inj (b c b' c' : N) :
  c < 256 -> c' < 256 -> b mod 16 = b' mod 16 ->
  (b mod 16) * 4 + c / 64 = (b' mod 16) * 4 + c' / 64 ->
  c mod 64 = c' mod 64 -> c = c'.
Proof. euclid c 64. euclid c' 64. lia. Qed.

Lemma sextet_2_lt (a b : N) : b < 256 -> (a mod 4) * 16 + b / 16 < 64.
Proof. intros Hb. euclid a 4. euclid b 16. lia. Qed.

Lemma sextet_3_lt (b c : N) : c < 256 -> (b mod 16) * 4 + c / 64 < 64.
Proof. intros Hc. euclid b 16. euclid c 64. lia. Qed.

Lemma sextet_2_last (a : N) :
  N.shiftl (N.land a 3) 4 = (a mod 4) * 16 /\ (a mod 4) * 16 < 64.
Proof.
  split; [apply (sextet_high a 2)|]. euclid a 4. lia.
Qed.

Lemma sextet_3_last (b : N) :
  N.shiftl (N.land b 15) 2 = (b mod 16) * 4 /\ (b mod 16) * 4 < 64.
Proof.
  split; [apply (sextet_high b 4)|]. euclid b 16. lia.
Qed.

Lemma one_byte_group_inj (a a' : N) :
  a < 256 -> a' < 256 ->
  base64_digit (N.shiftr a 2) = base64_digit (N.shiftr a' 2) ->
  base64_digit (N.shiftl (N.land a 3) 4)
  = base64_digit (N.shiftl (N.land a' 3) 4) ->
  a = a'.
Proof.
  intros Ha Ha' E1 E2.
  rewrite (proj1 (sextet_1 a Ha)), (proj1 (sextet_1 a' Ha')) in E1.
  apply base64_digit_inj in E1; [|now apply sextet_1..].
  rewrite (proj1 (sextet_2_last a)), (proj1 (sextet_2_last a')) in E2.
  apply base64_digit_inj in E2; [|apply sextet_2_last..].
  now apply first_byte_inj.
Qed.

Lemma two_byte_group_inj (a b a' b' : N) :
  a < 256 -> b < 256 -> a' < 256 -> b' < 256 ->
  base64_digit (N.shiftr a 2) = base64_digit (N.shiftr a' 2) ->
  base64_digit (N.lor (N.shiftl (N.land a 3) 4) (N.shiftr b 4))
  = base64_digit (N.lor (N.shiftl (N.land a' 3) 4) (N.shiftr b' 4)) ->
  base64_digit (N.shiftl (N.land b 15) 2)
  = base64_digit (N.shiftl (N.land b' 15) 2) ->
  a = a' /\ b = b'.
Proof.
  intros Ha Hb Ha' Hb' E1 E2 E3.
  rewrite (proj1 (sextet_1 a Ha)), (proj1 (sextet_1 a' Ha')) in E1.
  apply base64_digit_inj in E1; [|now apply sextet_1..].
  rewrite (sextet_2 a b Hb), (sextet_2 a' b' Hb') in E2.
  apply base64_digit_inj in E2; [|now apply sextet_2_lt..].
  rewrite (proj1 (sextet_3_last b)), (proj1 (sextet_3_last b')) in E3.
  apply base64_digit_inj in E3; [|apply sextet_3_last..].
  assert (Hr : a mod 4 = a' mod 4).
  { clear E3. euclid a 4. euclid a' 4. euclid b 16. euclid b' 16. lia. }
  split.
  - apply first_byte_inj; [exact E1|now rewrite Hr].
  - now apply (second_byte_inj a b a' b').
Qed.

Lemma three_byte_group_inj (a b c a' b' c' : N) :
  a < 256 -> b < 256 -> c < 256 -> a' < 256 -> b' < 256 -> c' < 256 ->
  base64_digit (N.shiftr a 2) = base64_digit (N.shiftr a' 2) ->
  base64_digit (N.lor (N.shiftl (N.land a 3) 4) (N.shiftr b 4))
  = base64_digit (N.lor (N.shiftl (N.land a' 3) 4) (N.shiftr b' 4)) ->
  base64_digit (N.lor (N.shiftl (N.land b 15) 2) (N.shiftr c 6))
  = base64_digit (N.lor (N.shiftl (N.land b' 15) 2) (N.shiftr c' 6)) ->
  base64_digit (N.land c 63) = base64_digit (N.land c' 63) ->
  a = a' /\ b = b' /\ c = c'.
Proof.
  intros Ha Hb Hc Ha' Hb' Hc' E1 E2 E3 E4.
  rewrite (proj1 (sextet_1 a Ha)), (proj1 (sextet_1 a' Ha')) in E1.
  apply base64_digit_inj in E1; [|now apply sextet_1..].
  rewrite (sextet_2 a b Hb), (sextet_2 a' b' Hb') in E2.
  apply base64_digit_inj in E2; [|now apply sextet_2_lt..].
  rewrite (sextet_3 b c Hc), (sextet_3 b' c' Hc') in E3.
  apply base64_digit_inj in E3; [|now apply sextet_3_lt..].
  rewrite (proj1 (sextet_4 c)), (proj1 (sextet_4 c')) in E4.
  apply base64_digit_inj in E4; [|apply sextet_4..].
  assert (Hra : a mod 4 = a' mod 4).
  { clear E3 E4. euclid a 4. euclid a' 4. euclid b 16. euclid b' 16. lia. }
  assert (Hrb : b mod 16 = b' mod 16).
  { clear E1 E2 E4 Hra.
    euclid b 16. euclid b' 16. euclid c 64. euclid c' 64. lia. }
  assert (Eb : b = b').
  { apply (second_byte_inj a b a' b'); auto. now rewrite Hrb. }
  repeat split.
  - apply first_byte_inj; [exact E1|now rewrite Hra].
  - exact Eb.
  - now apply (third_byte_inj b c b' c').
Qed.

Lemma base64_inj (x : list N) :
  octets x -> forall y, octets y -> base64 x = base64 y -> x = y.
Proof.
  unfold octets.
  induction x as [|a|a b|a b c rest IH] using list_ind3;
    intros Hx y Hy E;
    destruct y as [|a' [|b' [|c' rest']]]; cbn [base64] in E;
    try discriminate E;
    repeat match goal with
           | H : Forall _ (_ :: _) |- _ => inversion H; subst; clear H
           end.
  - reflexivity.
  - injection E as E1 E2. f_equal. now apply one_byte_group_inj.
  - injection E as _ _ E3. symmetry in E3.
    now apply base64_digit_no_padding in E3.
  - injection E as _ _ E3. symmetry in E3.
    now apply base64_digit_no_padding in E3.
  - injection E as _ _ E3. now apply base64_digit_no_padding in E3.
  - injection E as E1 E2 E3.
    destruct (two_byte_group_inj a b a' b') as [-> ->]; auto.
  - injection E as _ _ _ E4. symmetry in E4.
    now apply base64_digit_no_padding in E4.
  - injection E as _ _ E3. now apply base64_digit_no_padding in E3.
  - injection E as _ _ _ E4. now apply base64_digit_no_padding in E4.
  - injection E as E1 E2 E3 E4 Erest.
    destruct (three_byte_group_inj a b c a' b' c') as (-> & -> & ->); auto.
    do 3 f_equal. now apply IH.
Qed.

(** Names the quotient [q] and the remainder [r] of [x] by [d]. *)
Ltac euclid_as x d q r :=
  pose proof (N.div_mod x d ltac:(discriminate));
  pose proof (N.mod_lt x d ltac:(discriminate));
  set (q := x / d) in *; set (r := x mod d) in *; clearbody q r.

(** The bytes of a code point, in arithmetic. *)
Lemma utf8_code_point_shape (cp : N) :
  cp < 2097152 ->
  utf8_code_point cp
  = if cp <? 128 then [cp]
    else if cp <? 2048 then [192 + cp / 64; 128 + cp mod 64]
    else if cp <? 65536 then
      [224 + cp / 64 / 64; 128 + (cp / 64) mod 64; 128 + cp mod 64]
    else
      [240 + cp / 64 / 64 / 64; 128 + (cp / 64 / 64) mod 64;
       128 + (cp / 64) mod 64; 128 + cp mod 64].
Proof.
  intros Hcp. unfold utf8_code_point.
  assert (H12 : N.shiftr cp 12 = cp / 64 / 64).
  { rewrite shiftr_div, N.Div0.div_div. reflexivity. }
  assert (H18 : N.shiftr cp 18 = cp / 64 / 64 / 64).
  { rewrite shiftr_div, !N.Div0.div_div. reflexivity. }
  assert (H6 : N.shiftr cp 6 = cp / 64) by apply shiftr_div.
  destruct (N.ltb_spec cp 128) as [H1|H1]; [reflexivity|].
  destruct (N.ltb_spec cp 2048) as [H2|H2].
  { destruct (lead_byte 6 6 5 cp H2) as [Hlead _].
    change (6 * 2 ^ 5) with 192 in Hlead. change (2 ^ 6) with 64 in Hlead.
    rewrite Hlead, (proj1 (continuation_byte cp)). reflexivity. }
  destruct (N.ltb_spec cp 65536) as [H3|H3].
  { destruct (lead_byte 14 12 4 cp H3) as [Hlead _].
    change (14 * 2 ^ 4) with 224 in Hlead. rewrite shiftr_div in H12.
    rewrite H12 in Hlead.
    rewrite Hlead, !(proj1 (continuation_byte _)), H6. reflexivity. }
  destruct (lead_byte 30 18 3 cp Hcp) as [Hlead _].
  change (30 * 2 ^ 3) with 240 in Hlead. rewrite shiftr_div in H18.
  rewrite H18 in Hlead.
  rewrite Hlead, !(proj1 (continuation_byte _)), H6, H12. reflexivity.
Qed.

Lemma cons_eq_inv {A : Type} (a b : A) (l l' : list A) :
  a :: l = b :: l' -> a = b /\ l = l'.
Proof. intros E. now injection E. Qed.

(** UTF-8 is a prefix code: the bytes of a code point, followed by
    anything, are read back in one way only. *)
Lemma utf8_code_point_inj (cp cp' : N) (r r' : list N) :
  cp < 2097152 -> cp' < 2097152 ->
  utf8_code_point cp ++ r = utf8_code_point cp' ++ r' ->
  cp = cp' /\ r = r'.
Proof.
  intros Hcp Hcp'.
  rewrite (utf8_code_point_shape cp Hcp), (utf8_code_point_shape cp' Hcp').
  euclid_as cp 64 q1 r0. euclid_as q1 64 q2 r1. euclid_as q2 64 q3 r2.
  euclid_as cp' 64 q1' r0'. euclid_as q1' 64 q2' r1'.
  euclid_as q2' 64 q3' r2'.
  destruct (N.ltb_spec cp 128), (N.ltb_spec cp 2048),
    (N.ltb_spec cp 65536), (N.ltb_spec cp' 128), (N.ltb_spec cp' 2048),
    (N.ltb_spec cp' 65536);
    try lia;
    cbn [Datatypes.app]; intros E;
    repeat match type of E with
           | _ :: _ = _ :: _ =>
               apply cons_eq_inv in E; destruct E as [? E]
           end;
    (split; [lia|first [exact E|exfalso; lia]]).
Qed.

Lemma utf8_code_point_nonempty (cp : N) (r : list N) :
  utf8_code_point cp ++ r <> [].
Proof.
  unfold utf8_code_point.
  destruct (cp <? 128), (cp <? 2048), (cp <? 65536); discriminate.
Qed.

Lemma surrogate_pair_inj (hi lo hi' lo' : N) :
  is_high_surrogate hi = true -> is_low_surrogate lo = true ->
  is_high_surrogate hi' = true -> is_low_surrogate lo' = true ->
  surrogate_pair hi lo = surrogate_pair hi' lo' -> hi = hi' /\ lo = lo'.
Proof.
  unfold is_high_surrogate, is_low_surrogate, between, surrogate_pair.
  intros Hhi Hlo Hhi' Hlo'. rewrite !shiftl_mul. change (2 ^ 10) with 1024.
  apply andb_true_iff in Hhi, Hlo, Hhi', Hlo'.
  destruct Hhi as [H1 H2], Hlo as [H3 H4], Hhi' as [H5 H6], Hlo' as [H7 H8].
  apply N.leb_le in H1, H2, H3, H4, H5, H6, H7, H8. lia.
Qed.

(** The first code point of a well-formed string and what follows it. *)
Lemma well_formed_uncons (c : N) (rest : jsstring) :
  code_units (c :: rest) -> well_formed (c :: rest) = true ->
  exists cp tail,
    utf8_encode (c :: rest) = utf8_code_point cp ++ utf8_encode tail
    /\ cp < 2097152
    /\ code_units tail /\ well_formed tail = true
    /\ (List.length tail < List.length (c :: rest))%nat
    /\ ((c :: rest = c :: tail /\ cp = c /\ is_high_surrogate c = false)
        \/ exists lo,
             c :: rest = c :: lo :: tail /\ cp = surrogate_pair c lo
             /\ is_high_surrogate c = true /\ is_low_surrogate lo = true).
Proof.
  intros Hunits Hwf. inversion Hunits as [|? ? Hc Hrest]; subst.
  cbn [utf8_encode well_formed] in *.
  destruct (is_high_surrogate c) eqn:Hhi.
  - destruct rest as [|lo tail]; [discriminate|].
    apply andb_true_iff in Hwf. destruct Hwf as [Hlo Hwf]. rewrite Hlo.
    inversion Hrest as [|? ? Hlo' Htail]; subst.
    exists (surrogate_pair c lo), tail.
    pose proof (surrogate_pair_range c lo Hhi Hlo).
    split; [reflexivity|]. split; [lia|]. split; [exact Htail|].
    split; [exact Hwf|]. split; [simpl; lia|].
    right. exists lo. auto.
  - apply andb_true_iff in Hwf. destruct Hwf as [Hlo Hwf].
    apply negb_true_iff in Hlo. rewrite Hlo.
    exists c, rest.
    split; [reflexivity|]. split; [lia|]. split; [exact Hrest|].
    split; [exact Hwf|]. split; [simpl; lia|].
    left. auto.
Qed.

Lemma utf8_encode_inj (s : jsstring) :
  forall t,
    code_units s -> code_units t ->
    well_formed s = true -> well_formed t = true ->
    utf8_encode s = utf8_encode t -> s = t.
Proof.
  remember (List.length s) as n eqn:Hn.
  assert (Hle : (List.length s <= n)%nat) by lia. clear Hn.
  revert s Hle. induction n as [|n IH]; intros s Hle t Hs Ht Hwfs Hwft E.
  - destruct s; [|simpl in Hle; lia].
    destruct t as [|d t']; [reflexivity|].
    destruct (well_formed_uncons d t' Ht Hwft) as (cp & tail & Hd & _).
    rewrite Hd in E. symmetry in E.
    now apply utf8_code_point_nonempty in E.
  - destruct s as [|c rest].
    { destruct t as [|d t']; [reflexivity|].
      destruct (well_formed_uncons d t' Ht Hwft) as (cp & tail & Hd & _).
      rewrite Hd in E. symmetry in E.
      now apply utf8_code_point_nonempty in E. }
    destruct (well_formed_uncons c rest Hs Hwfs)
      as (cp & tail & Hc & Hcp & Htail & Hwftail & Hlen & Hshape).
    destruct t as [|d t'].
    { rewrite Hc in E. now apply utf8_code_point_nonempty in E. }
    destruct (well_formed_uncons d t' Ht Hwft)
      as (cp' & tail' & Hd & Hcp' & Htail' & Hwftail' & Hlen' & Hshape').
    rewrite Hc, Hd in E.
    destruct (utf8_code_point_inj cp cp' _ _ Hcp Hcp' E) as [Ecp Etail].
    assert (Etails : tail = tail').
    { apply IH; auto. simpl in Hle, Hlen. lia. }
    subst tail'.
    assert (Hc16 : c < 65536) by (inversion Hs; assumption).
    assert (Hd16 : d < 65536) by (inversion Ht; assumption).
    destruct Hshape as [(Es & Ec & Hhi)|(lo & Es & Ec & Hhi & Hlo)];
      destruct Hshape'
        as [(Et & Ed & Hhi')|(lo' & Et & Ed & Hhi' & Hlo')];
      rewrite Es, Et.
    + f_equal. congruence.
    + pose proof (surrogate_pair_range d lo' Hhi' Hlo'). lia.
    + pose proof (surrogate_pair_range c lo Hhi Hlo). lia.
    + assert (Epair : surrogate_pair c lo = surrogate_pair d lo')
        by congruence.
      destruct (surrogate_pair_inj c lo d lo' Hhi Hlo Hhi' Hlo' Epair)
        as [-> ->].
      reflexivity.
Qed.

Lemma utf8_encode_octets (s : jsstring) :
  code_units s -> octets (utf8_encode s).
Proof.
  remember (List.length s) as n eqn:Hn.
  assert (Hle : (List.length s <= n)%nat) by lia. clear Hn.
  revert s Hle. induction n as [|n IH]; intros s Hle Hs.
  - destruct s; [constructor|simpl in Hle; lia].
  - destruct s as [|c rest]; [constructor|]. simpl in Hle.
    inversion Hs as [|? ? Hc Hrest]; subst. cbn [utf8_encode].
    assert (Hfffd : octets [239; 191; 189])
      by (repeat constructor).
    destruct (is_high_surrogate c) eqn:Hhi.
    + destruct rest as [|d rest']; [exact Hfffd|].
      destruct (is_low_surrogate d) eqn:Hlo.
      * inversion Hrest as [|? ? Hd Hrest']; subst.
        apply Forall_app. split.
        -- apply utf8_code_point_octets.
           pose proof (surrogate_pair_range c d Hhi Hlo). lia.
        -- apply IH; [simpl in Hle; lia|exact Hrest'].
      * apply Forall_app. split; [exact Hfffd|]. apply IH; [lia|exact Hrest].
    + destruct (is_low_surrogate c).
      * apply Forall_app. split; [exact Hfffd|]. apply IH; [lia|exact Hrest].
      * apply Forall_app. split; [|apply IH; [lia|exact Hrest]].
        apply utf8_code_point_octets. lia.
Qed.

(** X19.  The urn determines the object id: two object ids that are
    well-formed strings (16-bit code units, every surrogate paired) and
    differ get different urns, since both the UTF-8 encoding and the
    base64 encoding lose nothing.  Well-formedness is needed: an unpaired
    surrogate is encoded as U+FFFD is, so the one-unit ids D800 and FFFD
    share the urn 77+9. *)
Theorem urn_determines_object_id (id id' : jsstring) :
  (code_units id -> code_units id' ->
   well_formed id = true -> well_formed id' = true ->
   base64 (utf8_encode id) = base64 (utf8_encode id') -> id = id')
  /\ base64 (utf8_encode [55296]) = base64 (utf8_encode [65533])
  /\ base64 (utf8_encode [55296]) = lit "77+9".
Proof.
  split; [|split; reflexivity].
  intros Hid Hid' Hwf Hwf' E.
  apply utf8_encode_inj; auto.
  apply base64_inj; auto using utf8_encode_octets.
Qed.

Lemma urn_determines_object_id_witness :
  base64 (utf8_encode [97; 233; 55357; 56832])
  <> base64 (utf8_encode [97; 232; 55357; 56832]).
Proof.
  intros E.
  apply (proj1 (urn_determines_object_id [97; 233; 55357; 56832]
                  [97; 232; 55357; 56832])) in E;
    try reflexivity; try (unfold code_units; repeat constructor).
  discriminate E.
Defined.
